(** * WakeGuard Web: the drowsiness decision logic of [wakeguard-web/app.js]

    A shallow embedding of the geometry helpers ([distance], [calculateEAR]),
    of the per-frame state machine ([onResults], [triggerAlarm], [stopAlarm]),
    of the rate-limited notifier ([sendSmsAlert]), of session stop
    ([stopDetection]) and of the settings handler, followed by the properties
    proved about them.

    JavaScript numbers are IEEE 754 binary64 values; they are modelled by the
    standard library's executable specification [spec_float] at precision 53
    and maximal exponent 1024, so that division by zero, infinities and NaN
    behave here as they do in the browser. *)

From Stdlib Require Import ZArith List Bool Lia.
From Stdlib Require Import Floats.SpecFloat.
From Stdlib Require Import String Ascii.
Import ListNotations.

Local Open Scope Z_scope.

(** ** JavaScript numbers *)

Module JsNumber.

Definition number : Type := spec_float.

Definition prec : Z := 53.
Definition emax : Z := 1024.

Definition add : number -> number -> number := SFadd prec emax.
Definition sub : number -> number -> number := SFsub prec emax.
Definition mul : number -> number -> number := SFmul prec emax.
Definition div : number -> number -> number := SFdiv prec emax.
Definition sqrt : number -> number := SFsqrt prec emax.
Definition ltb : number -> number -> bool := SFltb.
Definition leb : number -> number -> bool := SFleb.
Definition eqb : number -> number -> bool := SFeqb.

(** An integer literal such as [2] or [2.0]. *)
Definition of_Z (z : Z) : number := binary_normalize prec emax z 0 false.

Definition zero : number := S754_zero false.

(** [Math.pow(b, 2)].  ECMAScript leaves the finite case
    implementation-approximated; engines return the correctly rounded square,
    which is [b * b].  The special cases (NaN, infinities, signed zeros)
    of [Number::exponentiate] with exponent 2 coincide with those of the
    product. *)
Definition pow2 (b : number) : number := mul b b.

Definition is_nan (v : number) : bool :=
  match v with S754_nan => true | _ => false end.

Definition is_finite (v : number) : bool :=
  match v with S754_zero _ | S754_finite _ _ _ => true | _ => false end.

(** The sign bit of a value that is not NaN. *)
Definition sign_bit (v : number) : bool :=
  match v with
  | S754_zero s | S754_infinity s | S754_finite s _ _ => s
  | S754_nan => false
  end.

(** Positive-or-NaN: what a square root, a sum of squares or a quotient of
    such values can be. *)
Definition nonneg_or_nan (v : number) : bool := negb (sign_bit v).

Definition valid (v : number) : bool := valid_binary prec emax v.

End JsNumber.

Import JsNumber.

(** ** Exceptions *)

Inductive JsError := TypeError.

Inductive result (A : Type) : Type :=
| Ok (a : A)
| Throw (e : JsError).
Arguments Ok {A} a.
Arguments Throw {A} e.

Definition bind {A B} (r : result A) (k : A -> result B) : result B :=
  match r with
  | Ok a => k a
  | Throw e => Throw e
  end.

Notation "'let*' p ':=' c1 'in' c2" := (bind c1 (fun p => c2))
  (at level 61, p pattern, c1 at next level, right associativity).

(** ** Landmarks and geometry *)

Record Point := { pt_x : number; pt_y : number }.

(** [landmarks[idx]] is [undefined] when [idx] is out of range; reading a
    coordinate of [undefined] throws a [TypeError]. *)
Definition coord (f : Point -> number) (p : option Point) : result number :=
  match p with
  | Some q => Ok (f q)
  | None => Throw TypeError
  end.

(** [distance(p1, p2)]:
    [Math.sqrt(Math.pow(p1.x - p2.x, 2) + Math.pow(p1.y - p2.y, 2))]. *)
Definition distance_pt (p1 p2 : Point) : number :=
  sqrt (add (pow2 (sub (pt_x p1) (pt_x p2))) (pow2 (sub (pt_y p1) (pt_y p2)))).

Definition distance (p1 p2 : option Point) : result number :=
  let* x1 := coord pt_x p1 in
  let* x2 := coord pt_x p2 in
  let* y1 := coord pt_y p1 in
  let* y2 := coord pt_y p2 in
  Ok (sqrt (add (pow2 (sub x1 x2)) (pow2 (sub y1 y2)))).

(** An array of landmarks as [getEyeLandmarks] returns it: the entries may be
    [undefined]. *)
Definition EyeLandmarks := list (option Point).

(** [eyeLandmarks[i]]: [undefined] both for a hole and past the end. *)
Definition at_index (eye : EyeLandmarks) (i : nat) : option Point :=
  match nth_error eye i with
  | Some p => p
  | None => None
  end.

(** [calculateEAR(eyeLandmarks)]. *)
Definition calculateEAR (eyeLandmarks : EyeLandmarks) : result number :=
  let* A := distance (at_index eyeLandmarks 1) (at_index eyeLandmarks 5) in
  let* B := distance (at_index eyeLandmarks 2) (at_index eyeLandmarks 4) in
  let* C := distance (at_index eyeLandmarks 0) (at_index eyeLandmarks 3) in
  let ear := div (add A B) (mul (of_Z 2) C) in
  Ok ear.

(** [getEyeLandmarks(landmarks, eyeIndices)]:
    [eyeIndices.map(idx => landmarks[idx])]. *)
Definition getEyeLandmarks (landmarks : list Point) (eyeIndices : list nat)
  : EyeLandmarks :=
  map (fun idx => nth_error landmarks idx) eyeIndices.

(** ** JavaScript strings

    A string is its sequence of UTF-16 code units; [length] counts them. *)

Module JsString.

Definition jsstring : Type := list N.

(** The code units of an ASCII literal. *)
Fixpoint lit (s : String.string) : jsstring :=
  match s with
  | String.EmptyString => []
  | String.String c r => Ascii.N_of_ascii c :: lit r
  end.

(** WhiteSpace and LineTerminator code points of ECMAScript, the ones
    [String.prototype.trim] strips. *)
Definition is_white_space (c : N) : bool :=
  ((9 <=? c) && (c <=? 13) || (c =? 32) || (c =? 160) || (c =? 5760)
   || (8192 <=? c) && (c <=? 8202) || (c =? 8232) || (c =? 8233)
   || (c =? 8239) || (c =? 8287) || (c =? 12288) || (c =? 65279))%N.

Fixpoint trimStart (s : jsstring) : jsstring :=
  match s with
  | [] => []
  | c :: r => if is_white_space c then trimStart r else s
  end.

Definition trimEnd (s : jsstring) : jsstring := rev (trimStart (rev s)).

Definition trim (s : jsstring) : jsstring := trimEnd (trimStart s).

(** [s.startsWith(c)] for a one-unit search string. *)
Definition startsWith (s : jsstring) (c : N) : bool :=
  match s with
  | [] => false
  | d :: _ => (d =? c)%N
  end.

(** [s.length] *)
Definition length (s : jsstring) : Z := Z.of_nat (List.length s).

(** ToBoolean of a string: the empty string is falsy. *)
Definition truthy (s : jsstring) : bool :=
  match s with [] => false | _ => true end.

Definition plus_sign : N := 43.

End JsString.

Import JsString.

(** ** Configuration *)

Record Config := {
  EAR_THRESHOLD : number;
  CONSEC_FRAMES_THRESHOLD : Z;
  SMS_COOLDOWN_MS : Z;
  RIGHT_EYE : list nat;
  LEFT_EYE : list nat
}.

(** The binary64 value of the literal [0.22]: [0x1.c28f5c28f5c29p-3]. *)
Definition lit_0_22 : number := S754_finite false 7926335344172073 (-55).

(** The [CONFIG] object of the source, its constant fields.  The one field
    that is assigned at run time, [SMS_RECIPIENT], lives in the state. *)
Definition CONFIG : Config := {|
  EAR_THRESHOLD := lit_0_22;
  CONSEC_FRAMES_THRESHOLD := 20;
  SMS_COOLDOWN_MS := 60000;
  RIGHT_EYE := [33; 160; 158; 133; 153; 144]%nat;
  LEFT_EYE := [362; 385; 387; 263; 373; 380]%nat
|}.

Definition DEFAULT_SMS_RECIPIENT : jsstring := lit "+917780643862"%string.

(** ** Program state: the module-level variables and the DOM bits they drive *)

Inductive StatusText :=
| Status_Ready            (* 'Ready - Click Start' *)
| Status_Starting         (* 'Starting camera...' *)
| Status_Monitoring       (* 'Monitoring...' *)
| Status_Drowsiness       (* 'DROWSINESS DETECTED!' *)
| Status_NoFace           (* 'No face detected' *)
| Status_CameraDenied.    (* 'Camera access denied' *)

Inductive StatusType := normal | active | alert.

Inductive SettingsStatus :=
| Settings_blank
| Settings_error                        (* class 'settings-status error' *)
| Settings_success (shown : jsstring).  (* class 'settings-status success' *)

Record State := mkState {
  SMS_RECIPIENT : jsstring;          (* CONFIG.SMS_RECIPIENT *)
  localStorage : option jsstring;    (* item 'wakeguard_sms_recipient' *)
  settingsStatus : SettingsStatus;
  isRunning : bool;
  closedEyeCounter : Z;
  alarmOn : bool;
  lastSmsTime : Z;
  smsInFlight : list Z;              (* [now] of each fetch not yet settled *)
  audioContext : bool;               (* [audioContext] is not null *)
  alarmInterval : bool;              (* [alarmInterval] is not null *)
  alarmOscillator : bool;            (* [alarmOscillator] is not null *)
  beepOn : bool;
  alertOverlay : bool;               (* class 'active' on the overlay *)
  statusText : StatusText;
  statusDot : StatusType;
  earWarning : bool                  (* class 'warning' on the EAR read-out *)
}.

Definition set_SMS_RECIPIENT v s := mkState v (localStorage s) (settingsStatus s) (isRunning s) (closedEyeCounter s) (alarmOn s) (lastSmsTime s) (smsInFlight s) (audioContext s) (alarmInterval s) (alarmOscillator s) (beepOn s) (alertOverlay s) (statusText s) (statusDot s) (earWarning s).
Definition set_localStorage v s := mkState (SMS_RECIPIENT s) v (settingsStatus s) (isRunning s) (closedEyeCounter s) (alarmOn s) (lastSmsTime s) (smsInFlight s) (audioContext s) (alarmInterval s) (alarmOscillator s) (beepOn s) (alertOverlay s) (statusText s) (statusDot s) (earWarning s).
Definition set_settingsStatus v s := mkState (SMS_RECIPIENT s) (localStorage s) v (isRunning s) (closedEyeCounter s) (alarmOn s) (lastSmsTime s) (smsInFlight s) (audioContext s) (alarmInterval s) (alarmOscillator s) (beepOn s) (alertOverlay s) (statusText s) (statusDot s) (earWarning s).
Definition set_isRunning v s := mkState (SMS_RECIPIENT s) (localStorage s) (settingsStatus s) v (closedEyeCounter s) (alarmOn s) (lastSmsTime s) (smsInFlight s) (audioContext s) (alarmInterval s) (alarmOscillator s) (beepOn s) (alertOverlay s) (statusText s) (statusDot s) (earWarning s).
Definition set_closedEyeCounter v s := mkState (SMS_RECIPIENT s) (localStorage s) (settingsStatus s) (isRunning s) v (alarmOn s) (lastSmsTime s) (smsInFlight s) (audioContext s) (alarmInterval s) (alarmOscillator s) (beepOn s) (alertOverlay s) (statusText s) (statusDot s) (earWarning s).
Definition set_alarmOn v s := mkState (SMS_RECIPIENT s) (localStorage s) (settingsStatus s) (isRunning s) (closedEyeCounter s) v (lastSmsTime s) (smsInFlight s) (audioContext s) (alarmInterval s) (alarmOscillator s) (beepOn s) (alertOverlay s) (statusText s) (statusDot s) (earWarning s).
Definition set_lastSmsTime v s := mkState (SMS_RECIPIENT s) (localStorage s) (settingsStatus s) (isRunning s) (closedEyeCounter s) (alarmOn s) v (smsInFlight s) (audioContext s) (alarmInterval s) (alarmOscillator s) (beepOn s) (alertOverlay s) (statusText s) (statusDot s) (earWarning s).
Definition set_smsInFlight v s := mkState (SMS_RECIPIENT s) (localStorage s) (settingsStatus s) (isRunning s) (closedEyeCounter s) (alarmOn s) (lastSmsTime s) v (audioContext s) (alarmInterval s) (alarmOscillator s) (beepOn s) (alertOverlay s) (statusText s) (statusDot s) (earWarning s).
Definition set_audioContext v s := mkState (SMS_RECIPIENT s) (localStorage s) (settingsStatus s) (isRunning s) (closedEyeCounter s) (alarmOn s) (lastSmsTime s) (smsInFlight s) v (alarmInterval s) (alarmOscillator s) (beepOn s) (alertOverlay s) (statusText s) (statusDot s) (earWarning s).
Definition set_alarmInterval v s := mkState (SMS_RECIPIENT s) (localStorage s) (settingsStatus s) (isRunning s) (closedEyeCounter s) (alarmOn s) (lastSmsTime s) (smsInFlight s) (audioContext s) v (alarmOscillator s) (beepOn s) (alertOverlay s) (statusText s) (statusDot s) (earWarning s).
Definition set_alarmOscillator v s := mkState (SMS_RECIPIENT s) (localStorage s) (settingsStatus s) (isRunning s) (closedEyeCounter s) (alarmOn s) (lastSmsTime s) (smsInFlight s) (audioContext s) (alarmInterval s) v (beepOn s) (alertOverlay s) (statusText s) (statusDot s) (earWarning s).
Definition set_beepOn v s := mkState (SMS_RECIPIENT s) (localStorage s) (settingsStatus s) (isRunning s) (closedEyeCounter s) (alarmOn s) (lastSmsTime s) (smsInFlight s) (audioContext s) (alarmInterval s) (alarmOscillator s) v (alertOverlay s) (statusText s) (statusDot s) (earWarning s).
Definition set_alertOverlay v s := mkState (SMS_RECIPIENT s) (localStorage s) (settingsStatus s) (isRunning s) (closedEyeCounter s) (alarmOn s) (lastSmsTime s) (smsInFlight s) (audioContext s) (alarmInterval s) (alarmOscillator s) (beepOn s) v (statusText s) (statusDot s) (earWarning s).
Definition set_status t d s := mkState (SMS_RECIPIENT s) (localStorage s) (settingsStatus s) (isRunning s) (closedEyeCounter s) (alarmOn s) (lastSmsTime s) (smsInFlight s) (audioContext s) (alarmInterval s) (alarmOscillator s) (beepOn s) (alertOverlay s) t d (earWarning s).
Definition set_earWarning v s := mkState (SMS_RECIPIENT s) (localStorage s) (settingsStatus s) (isRunning s) (closedEyeCounter s) (alarmOn s) (lastSmsTime s) (smsInFlight s) (audioContext s) (alarmInterval s) (alarmOscillator s) (beepOn s) (alertOverlay s) (statusText s) (statusDot s) v.

(** ** Observable events and actions on the state *)

Inductive Event :=
| alarm_started                                  (* AWAKE -> ALARM *)
| alarm_stopped                                  (* ALARM -> AWAKE *)
| sms_request (now : Z) (recipient : jsstring)   (* a [fetch] was issued *)
| sms_cooldown_skip.                             (* '[SMS] Cooldown active, skipping...' *)

(** A statement of the program: it updates the state and emits events. *)
Definition Act : Type := State -> State * list Event.

Definition skip : Act := fun s => (s, []).

Definition chain (a b : Act) : Act := fun s =>
  let (s1, l1) := a s in
  let (s2, l2) := b s1 in
  (s2, l1 ++ l2).

Definition modify (f : State -> State) : Act := fun s => (f s, []).

Definition emit (e : Event) : Act := fun s => (s, [e]).

Definition ifte (c : State -> bool) (a b : Act) : Act := fun s =>
  if c s then a s else b s.

Definition when (c : State -> bool) (a : Act) : Act := ifte c a skip.

Notation "a ;; b" := (chain a b) (at level 62, right associativity).

(** [closedEyeCounter++] on a binary64 integer: exact below 2^53, where the
    sum [2^53 + 1] rounds back to [2^53]. *)
Definition js_incr (c : Z) : Z := if c <? 2 ^ 53 then c + 1 else c.

Definition initAudioContext : Act :=
  when (fun s => negb (audioContext s)) (modify (set_audioContext true)).

Definition stopAlarmSound : Act :=
  when alarmInterval (modify (set_alarmInterval false)) ;;
  when alarmOscillator (modify (set_alarmOscillator false)).

Definition startAlarmSound : Act :=
  when (fun s => negb (audioContext s)) initAudioContext ;;
  when audioContext
    (stopAlarmSound ;;
     modify (set_beepOn true) ;;
     modify (set_alarmInterval true)).

(** The callback of [setInterval] in [startAlarmSound]; [created] tells
    whether [createOscillator] returned (the [try] swallows a failure). *)
Definition alarmTick (created : bool) : Act :=
  when alarmInterval
    (ifte beepOn
       (when (fun _ => created) (modify (set_alarmOscillator true)))
       (when alarmOscillator (modify (set_alarmOscillator false))) ;;
     modify (fun s => set_beepOn (negb (beepOn s)) s)).

Definition updateStatus (status : StatusText) (type : StatusType) : Act :=
  modify (set_status status type).

Inductive FetchOutcome := response_ok | response_not_ok | network_error.

Fixpoint remove_nth {A} (i : nat) (l : list A) : list A :=
  match l, i with
  | [], _ => []
  | _ :: r, O => r
  | a :: r, S j => a :: remove_nth j r
  end.

Section WithConfig.

Variable cfg : Config.

(** [sendSmsAlert()], up to the [await]: [now] is the reading of
    [Date.now()]. *)
Definition sendSmsAlert (now : Z) : Act := fun s =>
  if now - lastSmsTime s <? SMS_COOLDOWN_MS cfg
  then (s, [sms_cooldown_skip])
  else (set_smsInFlight (smsInFlight s ++ [now]) s,
        [sms_request now (SMS_RECIPIENT s)]).

(** The continuation of [sendSmsAlert] after the [await], for the [i]-th
    request in flight. *)
Definition smsSettled (i : nat) (o : FetchOutcome) : Act := fun s =>
  match nth_error (smsInFlight s) i with
  | None => (s, [])
  | Some now =>
      let s1 := set_smsInFlight (remove_nth i (smsInFlight s)) s in
      match o with
      | response_ok => (set_lastSmsTime now s1, [])
      | _ => (s1, [])
      end
  end.

Definition triggerAlarm (now : Z) : Act :=
  when (fun s => negb (alarmOn s))
    (modify (set_alarmOn true) ;;
     emit alarm_started ;;
     modify (set_alertOverlay true) ;;
     updateStatus Status_Drowsiness alert ;;
     startAlarmSound ;;
     sendSmsAlert now).

Definition stopAlarm : Act :=
  when alarmOn
    (modify (set_alarmOn false) ;;
     emit alarm_stopped ;;
     modify (set_alertOverlay false) ;;
     updateStatus Status_Monitoring active ;;
     stopAlarmSound).

(** What the face-mesh library hands to [onResults]. *)
Record Results := { multiFaceLandmarks : option (list (list Point)) }.

(** [(rightEAR + leftEAR) / 2] of a face. *)
Definition avgEAR (landmarks : list Point) : result number :=
  let rightEyeLandmarks := getEyeLandmarks landmarks (RIGHT_EYE cfg) in
  let leftEyeLandmarks := getEyeLandmarks landmarks (LEFT_EYE cfg) in
  let* rightEAR := calculateEAR rightEyeLandmarks in
  let* leftEAR := calculateEAR leftEyeLandmarks in
  Ok (div (add rightEAR leftEAR) (of_Z 2)).

(** The state machine proper, lines 298-310 of the source. *)
Definition onEAR (now : Z) (ear : number) : Act :=
  (if ltb ear (EAR_THRESHOLD cfg)
   then modify (fun s => set_closedEyeCounter (js_incr (closedEyeCounter s)) s) ;;
        modify (set_earWarning true)
   else modify (set_closedEyeCounter 0) ;;
        modify (set_earWarning false)) ;;
  ifte (fun s => CONSEC_FRAMES_THRESHOLD cfg <=? closedEyeCounter s)
    (triggerAlarm now)
    stopAlarm.

Definition onNoFace : Act :=
  modify (set_earWarning false) ;;
  when (fun s => negb (alarmOn s)) (updateStatus Status_NoFace normal).

(** [onResults(results)].  The frame-rate read-out and the canvas drawing
    are left out: they read no variable of the state machine and write
    none.  A [TypeError] can only come from [calculateEAR], before any
    variable kept here is assigned. *)
Definition onResults (now : Z) (results : Results) (s : State)
  : result (State * list Event) :=
  match multiFaceLandmarks results with
  | Some (landmarks :: _) =>
      let* ear := avgEAR landmarks in
      Ok (onEAR now ear s)
  | _ => Ok (onNoFace s)
  end.

(** [startDetection()]; [cameraOk] tells whether [camera.start()]
    resolved. *)
Definition startDetection (cameraOk : bool) : Act :=
  updateStatus Status_Starting normal ;;
  initAudioContext ;;
  if cameraOk
  then modify (set_isRunning true) ;; updateStatus Status_Monitoring active
  else updateStatus Status_CameraDenied normal.

Definition stopDetection : Act :=
  modify (set_isRunning false) ;;
  stopAlarm ;;
  modify (set_closedEyeCounter 0) ;;
  updateStatus Status_Ready normal.

End WithConfig.

(** ** Settings *)

Definition loadSavedSettings : Act := fun s =>
  match localStorage s with
  | Some savedRecipient =>
      if truthy savedRecipient
      then (set_SMS_RECIPIENT savedRecipient s, [])
      else (s, [])
  | None => (s, [])
  end.

(** The click handler of the save button; [value] is
    [smsRecipientInput.value]. *)
Definition saveSettings (value : jsstring) : Act := fun s =>
  let newRecipient := trim value in
  if negb (truthy newRecipient) || (JsString.length newRecipient <? 10)
  then (set_settingsStatus Settings_error s, [])
  else
    let formattedNumber :=
      if startsWith newRecipient plus_sign
      then newRecipient
      else plus_sign :: newRecipient in
    (set_settingsStatus (Settings_success formattedNumber)
       (set_localStorage (Some formattedNumber)
          (set_SMS_RECIPIENT formattedNumber s)), []).

(** The variables as the script initialises them, then the
    [DOMContentLoaded] handler; [stored] is what the browser kept. *)
Definition initial_vars (stored : option jsstring) : State := {|
  SMS_RECIPIENT := DEFAULT_SMS_RECIPIENT;
  localStorage := stored;
  settingsStatus := Settings_blank;
  isRunning := false;
  closedEyeCounter := 0;
  alarmOn := false;
  lastSmsTime := 0;
  smsInFlight := [];
  audioContext := false;
  alarmInterval := false;
  alarmOscillator := false;
  beepOn := false;
  alertOverlay := false;
  statusText := Status_Ready;
  statusDot := normal;
  earWarning := false
|}.

Definition initial (stored : option jsstring) : State :=
  fst ((loadSavedSettings ;; updateStatus Status_Ready normal)
         (initial_vars stored)).

(** ** The program as a transition system *)

Inductive Input :=
| StartClick (cameraOk : bool)
| StopClick
| Frame (now : Z) (results : Results)
| SmsSettled (i : nat) (o : FetchOutcome)
| AlarmTick (created : bool)
| SaveClick (value : jsstring).

Definition step (cfg : Config) (i : Input) (s : State)
  : result (State * list Event) :=
  match i with
  | StartClick cameraOk => Ok (startDetection cameraOk s)
  | StopClick => Ok (stopDetection s)
  | Frame now results => onResults cfg now results s
  | SmsSettled k o => Ok (smsSettled k o s)
  | AlarmTick created => Ok (alarmTick created s)
  | SaveClick value => Ok (saveSettings value s)
  end.

(** Runs the inputs in order; the events of all steps, oldest first. *)
Fixpoint run (cfg : Config) (inputs : list Input) (s : State)
  : result (State * list Event) :=
  match inputs with
  | [] => Ok (s, [])
  | i :: rest =>
      let* (s1, l1) := step cfg i s in
      let* (s2, l2) := run cfg rest s1 in
      Ok (s2, l1 ++ l2)
  end.

(** ** Frames as the claims speak of them *)

(** The landmarks of the first face, when one was detected. *)
Definition detected_face (r : Results) : option (list Point) :=
  match multiFaceLandmarks r with
  | Some (landmarks :: _) => Some landmarks
  | _ => None
  end.

Definition no_face (r : Results) : bool :=
  match detected_face r with None => true | Some _ => false end.

(** The averaged EAR of a frame, when a face was detected and every landmark
    that [calculateEAR] reads is there. *)
Definition frame_ear (cfg : Config) (r : Results) : option number :=
  match detected_face r with
  | Some landmarks =>
      match avgEAR cfg landmarks with
      | Ok ear => Some ear
      | Throw _ => None
      end
  | None => None
  end.

(** A face-detected frame whose averaged EAR is below the threshold. *)
Definition low_frame (cfg : Config) (i : Input) : bool :=
  match i with
  | Frame _ r =>
      match frame_ear cfg r with
      | Some ear => ltb ear (EAR_THRESHOLD cfg)
      | None => false
      end
  | _ => false
  end.

(** The six landmarks of an eye are all defined. *)
Definition eye_present (landmarks : list Point) (eyeIndices : list nat) : bool :=
  forallb
    (fun i => match at_index (getEyeLandmarks landmarks eyeIndices) i with
              | Some _ => true
              | None => false
              end)
    [0; 1; 2; 3; 4; 5]%nat.

Definition eyes_present (cfg : Config) (landmarks : list Point) : bool :=
  eye_present landmarks (RIGHT_EYE cfg) && eye_present landmarks (LEFT_EYE cfg).

(** [C] of [calculateEAR]: the horizontal distance [dist(p0, p3)] of an eye. *)
Definition horizontal (landmarks : list Point) (eyeIndices : list nat)
  : result number :=
  let eye := getEyeLandmarks landmarks eyeIndices in
  distance (at_index eye 0) (at_index eye 3).

Definition is_zero (v : number) : bool :=
  match v with S754_zero _ => true | _ => false end.

(** Some eye of the face has zero horizontal distance. *)
Definition degenerate (cfg : Config) (landmarks : list Point) : bool :=
  match horizontal landmarks (RIGHT_EYE cfg), horizontal landmarks (LEFT_EYE cfg) with
  | Ok c1, Ok c2 => is_zero c1 || is_zero c2
  | _, _ => false
  end.

Definition count_event (p : Event -> bool) (l : list Event) : nat :=
  List.length (filter p l).

Definition is_alarm_started (e : Event) : bool :=
  match e with alarm_started => true | _ => false end.

Definition is_alarm_stopped (e : Event) : bool :=
  match e with alarm_stopped => true | _ => false end.

Definition is_sms_request (e : Event) : bool :=
  match e with sms_request _ _ => true | _ => false end.

(** ** Test fixtures: faces with the eyes open, closed and collapsed *)

Definition dyadic (m e : Z) : number := binary_normalize prec emax m e false.

Definition pt (a b : number) : Point := {| pt_x := a; pt_y := b |}.

Definition face_of (f : nat -> Point) (n : nat) : list Point :=
  map f (List.seq 0 n).

Definition one_of (i : nat) (l : list nat) : bool := existsb (Nat.eqb i) l.

(** Both eyes span from x = 1/4 to x = 3/4 at y = 1/2; the lids sit at
    y = 1/2 -+ [gap]. *)
Definition eye_points (gap : number) (i : nat) : Point :=
  if one_of i [33; 362]%nat then pt (dyadic 1 (-2)) (dyadic 1 (-1))
  else if one_of i [133; 263]%nat then pt (dyadic 3 (-2)) (dyadic 1 (-1))
  else if one_of i [160; 158; 385; 387]%nat
       then pt (dyadic 1 (-1)) (sub (dyadic 1 (-1)) gap)
  else if one_of i [153; 144; 373; 380]%nat
       then pt (dyadic 1 (-1)) (add (dyadic 1 (-1)) gap)
  else pt (dyadic 1 (-1)) (dyadic 1 (-1)).

Definition frame_of (f : nat -> Point) : Results :=
  {| multiFaceLandmarks := Some [face_of f 468] |}.

(** EAR 0.5 *)
Definition open_eyes : Results := frame_of (eye_points (dyadic 1 (-3))).
(** EAR 0 *)
Definition closed_eyes : Results := frame_of (eye_points zero).
(** All landmarks on one point: both horizontal distances are 0. *)
Definition collapsed : Results := frame_of (fun _ => pt (dyadic 1 (-1)) (dyadic 1 (-1))).
Definition no_face_frame : Results := {| multiFaceLandmarks := Some [] |}.

Definition t0 : Z := 1700000000000.

Definition state_after (inputs : list Input) : State :=
  match run CONFIG inputs (initial None) with
  | Ok (s, _) => s
  | Throw _ => initial None
  end.

Definition events_of (inputs : list Input) : list Event :=
  match run CONFIG inputs (initial None) with
  | Ok (_, evs) => evs
  | Throw _ => []
  end.

(** The state and events of a step that did not throw. *)
Definition onResults_ok (r : result (State * list Event)) : State * list Event :=
  match r with
  | Ok p => p
  | Throw _ => (initial None, [])
  end.

(** Five low frames: AWAKE with the counter at 5. *)
Definition five_low : State := state_after (repeat (Frame t0 closed_eyes) 5).

(** Twenty low frames: ALARM, the beep running, one request in flight. *)
Definition alarmed : State := state_after (repeat (Frame t0 closed_eyes) 20).

(** ALARM, and the request was answered with an ok response. *)
Definition notified : State :=
  state_after (repeat (Frame t0 closed_eyes) 20 ++ [SmsSettled 0 response_ok]).

(** ** Reachable states and the audio invariant *)

Inductive reachable (cfg : Config) : State -> Prop :=
| reach_initial (stored : option jsstring) : reachable cfg (initial stored)
| reach_step (i : Input) (s s' : State) (ev : list Event) :
    reachable cfg s -> step cfg i s = Ok (s', ev) -> reachable cfg s'.

(** The beep timer runs only while the alarm is on, and an oscillator exists
    only while the timer runs. *)
Definition audio_inv (s : State) : bool :=
  implb (alarmInterval s) (alarmOn s)
  && implb (alarmOscillator s) (alarmInterval s).

(** ** The recipient as the spec words it: "+" prefixed when absent *)

Definition with_plus (recipient : jsstring) : jsstring :=
  if startsWith recipient plus_sign then recipient else plus_sign :: recipient.

(** ** Magnitudes of numbers

    A finite value [m * 2^e] whose mantissa has [d] binary digits lies in
    [2^(d+e-1), 2^(d+e)); [d + e] is its magnitude. *)

(** Finite and below [2^k] in absolute value. *)
Definition mag_le (k : Z) (v : number) : bool :=
  match v with
  | S754_zero _ => true
  | S754_finite _ m e => Zpos (digits2_pos m) + e <=? k
  | _ => false
  end.

(** Finite, not zero, and at least [2^(k-1)] in absolute value. *)
Definition mag_ge (k : Z) (v : number) : bool :=
  match v with
  | S754_finite _ m e => k <=? Zpos (digits2_pos m) + e
  | _ => false
  end.

(** The exponent is not below that of the subnormal numbers. *)
Definition exp_ok (v : number) : bool :=
  match v with
  | S754_finite _ _ e => -1074 <=? e
  | _ => true
  end.

Definition nan_or_pinf (v : number) : bool :=
  match v with
  | S754_nan | S754_infinity false => true
  | _ => false
  end.

(** Finite, with both coordinates below [2^K] in absolute value. *)
Definition point_within (K : Z) (p : Point) : bool :=
  mag_le K (pt_x p) && mag_le K (pt_y p).

(** A valid binary64 value between 0 and 1, as the normalized landmark
    coordinates are. *)
Definition in_unit_interval (v : number) : bool :=
  valid v && leb zero v && leb v (of_Z 1).

(** ** The Euclidean distance and the EAR as the specification words them *)

Definition euclid (p q : Point) : number :=
  let dx := sub (pt_x p) (pt_x q) in
  let dy := sub (pt_y p) (pt_y q) in
  sqrt (add (mul dx dx) (mul dy dy)).

Definition computeEAR_spec (p0 p1 p2 p3 p4 p5 : Point) : number :=
  div (add (euclid p1 p5) (euclid p2 p4)) (mul (of_Z 2) (euclid p0 p3)).

(** * More of the program: listeners, read-outs and derived notions *)

Definition is_cooldown_skip (e : Event) : bool :=
  match e with sms_cooldown_skip => true | _ => false end.

(** The overlay is shown and the beep timer is set exactly while the alarm
    flag is on. *)
Definition indicators_in_sync (s : State) : bool :=
  Bool.eqb (alertOverlay s) (alarmOn s) && Bool.eqb (alarmInterval s) (alarmOn s).

(** A step emits nothing, or [alarm_stopped] alone, or [alarm_started]
    followed by the outcome of the SMS gate; the alarm flag moves with it. *)
Inductive step_shape (s s' : State) : list Event -> Prop :=
| shape_quiet : alarmOn s' = alarmOn s -> step_shape s s' []
| shape_stopped :
    alarmOn s = true -> alarmOn s' = false -> step_shape s s' [alarm_stopped]
| shape_started_skip :
    alarmOn s = false -> alarmOn s' = true ->
    step_shape s s' [alarm_started; sms_cooldown_skip]
| shape_started_sms (now : Z) :
    alarmOn s = false -> alarmOn s' = true ->
    step_shape s s' [alarm_started; sms_request now (SMS_RECIPIENT s)].

(** A frame without a face, as an input. *)
Definition no_face_input (i : Input) : bool :=
  match i with
  | Frame _ r => no_face r
  | _ => false
  end.

(** An input after which the count starts afresh: the stop button, or a
    face-detected frame whose averaged EAR is not below the threshold. *)
Definition resets_count (cfg : Config) (i : Input) : bool :=
  match i with
  | StopClick => true
  | Frame _ r =>
      match frame_ear cfg r with
      | Some ear => negb (ltb ear (EAR_THRESHOLD cfg))
      | None => false
      end
  | _ => false
  end.

(** [n] firings of the beep timer, each of which gets its oscillator. *)
Fixpoint ticks (n : nat) (s : State) : State :=
  match n with
  | O => s
  | S k => ticks k (fst (alarmTick true s))
  end.

(** ** The hidden settings panel

    The variables and DOM bits of the secret-code listener, kept apart from
    [State]: the keys typed so far, whether the modal is shown, and the text
    of the recipient input. *)

Definition SECRET_CODE : jsstring := lit "pasha123".

Definition ESCAPE : jsstring := lit "Escape".

Record Panel := mkPanel {
  typedKeys : jsstring;
  settingsModal : bool;            (* class 'active' on the modal *)
  smsRecipientInput : jsstring     (* smsRecipientInput.value *)
}.

(** [a === b] on strings. *)
Definition str_eqb (a b : jsstring) : bool :=
  if list_eq_dec N.eq_dec a b then true else false.

(** [s.slice(-n)] for a positive [n]: the last [n] code units, all of [s]
    when it is shorter. *)
Definition slice_last (n : nat) (s : jsstring) : jsstring :=
  skipn (List.length s - n) s.

Definition openSettings (ps : Panel * State) : Panel * State :=
  let (p, s) := ps in
  (mkPanel (typedKeys p) true (SMS_RECIPIENT s),
   set_settingsStatus Settings_blank s).

Definition closeSettings (p : Panel) : Panel :=
  mkPanel [] false (smsRecipientInput p).

Section WithLowerCase.

(** [String.prototype.toLowerCase], which the listener applies to [e.key]. *)
Variable toLowerCase : jsstring -> jsstring.

(** The first [keydown] listener (lines 453-469); [targetIsInput] is
    [e.target.tagName === 'INPUT']. *)
Definition onSecretKeydown (targetIsInput : bool) (key : jsstring)
  (ps : Panel * State) : Panel * State :=
  if targetIsInput then ps
  else
    let (p, s) := ps in
    let typed := typedKeys p ++ toLowerCase key in
    let typed :=
      if (List.length SECRET_CODE <? List.length typed)%nat
      then slice_last (List.length SECRET_CODE) typed
      else typed in
    let p1 := mkPanel typed (settingsModal p) (smsRecipientInput p) in
    if str_eqb typed SECRET_CODE
    then let (p2, s2) := openSettings (p1, s) in
         (mkPanel [] (settingsModal p2) (smsRecipientInput p2), s2)
    else (p1, s).

(** The second [keydown] listener (lines 496-500). *)
Definition onEscapeKeydown (key : jsstring) (ps : Panel * State) : Panel * State :=
  let (p, s) := ps in
  if str_eqb key ESCAPE && settingsModal p then (closeSettings p, s) else ps.

(** A key press runs both listeners, in the order they were added. *)
Definition keydown (targetIsInput : bool) (key : jsstring)
  (ps : Panel * State) : Panel * State :=
  onEscapeKeydown key (onSecretKeydown targetIsInput key ps).

(** Keys pressed one after the other, outside any input field. *)
Definition typeKeys (keys : list jsstring) (ps : Panel * State) : Panel * State :=
  fold_left (fun acc key => keydown false key acc) keys ps.

End WithLowerCase.

(** ASCII lower-casing, enough for the keys of the secret code. *)
Definition lower_ascii (s : jsstring) : jsstring :=
  map (fun c => if ((65 <=? c) && (c <=? 90))%N then (c + 32)%N else c) s.

(** One key press per code unit of a text. *)
Definition keys_of (text : jsstring) : list jsstring := map (fun c => [c]) text.

(** ** The frame-rate read-out (lines 271-278 of [onResults]) *)





(** An SMS request, if the event is one, is addressed to a "+" number. *)
Definition addressed_with_plus (e : Event) : bool :=
  match e with
  | sms_request _ recipient => startsWith recipient plus_sign
  | _ => true
  end.

(** * Properties *)

(** ** The per-frame state machine *)

Ltac unfold_acts :=
  unfold stopDetection, startDetection, onEAR, onNoFace, triggerAlarm,
    stopAlarm, startAlarmSound, stopAlarmSound, initAudioContext,
    updateStatus, sendSmsAlert, when, ifte, chain, modify, emit, skip.

Ltac break_if :=
  match goal with
  | |- context [if ?b then _ else _] => destruct b eqn:?
  end.

Section StateMachine.

Variable cfg : Config.

(** What one face-detected frame with averaged EAR [ear] does to the
    detection state and which events it emits. *)
Lemma onEAR_spec (now : Z) (ear : number) (s : State) :
  let c' := if ltb ear (EAR_THRESHOLD cfg)
            then js_incr (closedEyeCounter s) else 0 in
  let r := onEAR cfg now ear s in
  closedEyeCounter (fst r) = c'
  /\ alarmOn (fst r) = (CONSEC_FRAMES_THRESHOLD cfg <=? c')
  /\ lastSmsTime (fst r) = lastSmsTime s
  /\ snd r =
     if CONSEC_FRAMES_THRESHOLD cfg <=? c'
     then (if alarmOn s then []
           else alarm_started :: snd (sendSmsAlert cfg now s))
     else (if alarmOn s then [alarm_stopped] else []).
Proof.
  unfold_acts; cbn.
  destruct (ltb ear (EAR_THRESHOLD cfg)); cbn;
    repeat (break_if; cbn in *; try congruence); auto.
Qed.

(** A frame without a face touches neither the counter nor the alarm. *)
Lemma onNoFace_spec (s : State) :
  let r := onNoFace s in
  closedEyeCounter (fst r) = closedEyeCounter s
  /\ alarmOn (fst r) = alarmOn s
  /\ lastSmsTime (fst r) = lastSmsTime s
  /\ alarmInterval (fst r) = alarmInterval s
  /\ alarmOscillator (fst r) = alarmOscillator s
  /\ alertOverlay (fst r) = alertOverlay s
  /\ snd r = [].
Proof.
  unfold_acts; cbn. destruct (alarmOn s) eqn:E; cbn; repeat split; auto.
Qed.

Lemma onResults_face (now : Z) (r : Results) (ear : number) (s : State) :
  frame_ear cfg r = Some ear ->
  onResults cfg now r s = Ok (onEAR cfg now ear s).
Proof.
  unfold frame_ear, detected_face, onResults.
  destruct (multiFaceLandmarks r) as [[|l rest]|]; try discriminate.
  destruct (avgEAR cfg l); cbn; congruence.
Qed.

Lemma onResults_no_face (now : Z) (r : Results) (s : State) :
  no_face r = true ->
  onResults cfg now r s = Ok (onNoFace s).
Proof.
  unfold no_face, detected_face, onResults.
  destruct (multiFaceLandmarks r) as [[|l rest]|]; try discriminate; auto.
Qed.

End StateMachine.

(** ** Comparisons of numbers *)

Lemma SFcompare_antisym (a b : number) :
  SFcompare b a = option_map CompOpp (SFcompare a b).
Proof.
  destruct a as [[]|[]| |[] ma ea], b as [[]|[]| |[] mb eb]; cbn;
    try reflexivity;
    rewrite (Z.compare_antisym ea eb);
    destruct (ea ?= eb); cbn; try reflexivity;
    change (Pos.compare_cont Eq mb ma) with (Pos.compare mb ma);
    change (Pos.compare_cont Eq ma mb) with (Pos.compare ma mb);
    rewrite (Pos.compare_antisym ma mb);
    now rewrite ?CompOpp_involutive.
Qed.

(** "At or above" excludes "below": [t <= v] makes [v < t] false. *)
Lemma leb_not_ltb (t v : number) : leb t v = true -> ltb v t = false.
Proof.
  unfold leb, ltb, SFleb, SFltb. rewrite (SFcompare_antisym t v).
  destruct (SFcompare t v) as [[ | | ]|]; cbn; congruence.
Qed.

(** Nothing is below NaN or above plus infinity. *)
Lemma ltb_nan_l (t : number) : ltb S754_nan t = false.
Proof. reflexivity. Qed.

Lemma ltb_pinf_l (t : number) : ltb (S754_infinity false) t = false.
Proof. destruct t as [s|s| |s m e]; try destruct s; reflexivity. Qed.

Lemma js_incr_bounds (c : Z) :
  0 <= c <= 2 ^ 53 -> js_incr c = Z.min (c + 1) (2 ^ 53).
Proof.
  unfold js_incr. intros H. destruct (Z.ltb_spec c (2 ^ 53)); lia.
Qed.

Section Runs.

Variable cfg : Config.

Lemma low_step (i : Input) (s : State) :
  low_frame cfg i = true ->
  exists s' ev,
    step cfg i s = Ok (s', ev)
    /\ closedEyeCounter s' = js_incr (closedEyeCounter s)
    /\ alarmOn s' = (CONSEC_FRAMES_THRESHOLD cfg <=? js_incr (closedEyeCounter s))
    /\ count_event is_alarm_started ev =
       if negb (alarmOn s)
          && (CONSEC_FRAMES_THRESHOLD cfg <=? js_incr (closedEyeCounter s))
       then 1%nat else 0%nat.
Proof.
  destruct i as [ | |now r| | | ]; cbn; try discriminate.
  destruct (frame_ear cfg r) as [ear|] eqn:Hear; try discriminate.
  intros Hlow.
  exists (fst (onEAR cfg now ear s)), (snd (onEAR cfg now ear s)).
  rewrite (onResults_face cfg now r ear s Hear).
  destruct (onEAR_spec cfg now ear s) as (Hc & Ha & _ & He).
  rewrite Hlow in Hc, Ha, He.
  split; [now destruct (onEAR cfg now ear s)|].
  split; [exact Hc|]. split; [exact Ha|].
  rewrite He.
  destruct (CONSEC_FRAMES_THRESHOLD cfg <=? js_incr (closedEyeCounter s));
    destruct (alarmOn s); cbn; try reflexivity.
  unfold sendSmsAlert. now break_if.
Qed.

(** After [k] low frames the counter has advanced by [k] and the alarm
    follows the counter. *)
Lemma low_prefix (frames : list Input) :
  forallb (low_frame cfg) frames = true ->
  forall (k : nat) (s : State),
    (k <= List.length frames)%nat ->
    0 <= closedEyeCounter s <= 2 ^ 53 ->
    exists s_k evs,
      run cfg (firstn k frames) s = Ok (s_k, evs)
      /\ closedEyeCounter s_k = Z.min (closedEyeCounter s + Z.of_nat k) (2 ^ 53)
      /\ (k <> 0%nat ->
          alarmOn s_k = (CONSEC_FRAMES_THRESHOLD cfg <=? closedEyeCounter s_k)).
Proof.
  induction frames as [|f fs IH]; intros Hall k s Hk Hc.
  - assert (k = 0%nat) by (cbn in Hk; lia). subst k. cbn.
    exists s, []. repeat split; try lia; try congruence.
  - destruct k as [|k].
    + cbn. exists s, []. repeat split; try lia; try congruence.
    + cbn [forallb] in Hall. apply andb_prop in Hall as [Hf Hfs].
      destruct (low_step f s Hf) as (s1 & ev1 & Hstep & Hc1 & Ha1 & _).
      rewrite (js_incr_bounds _ Hc) in Hc1, Ha1.
      assert (Hc1' : 0 <= closedEyeCounter s1 <= 2 ^ 53) by lia.
      cbn in Hk.
      destruct (IH Hfs k s1 ltac:(lia) Hc1') as (s_k & evs & Hrun & Hck & Hak).
      exists s_k, (ev1 ++ evs). cbn [firstn run]. rewrite Hstep. cbn.
      rewrite Hrun. cbn. split; [reflexivity|]. split; [lia|].
      intros _. destruct k as [|k'].
      * cbn in Hrun. injection Hrun as <- <-. rewrite Ha1. f_equal. lia.
      * apply Hak. congruence.
Qed.

End Runs.

(** C1: from AWAKE with the counter at 0, on a stream of face-detected frames
    whose averaged EAR is below the threshold, the frame number [k + 1] emits
    [alarm_started] exactly when [k + 1] is the consecutive-frame threshold
    (20 in [CONFIG]), and the state after it is ALARM exactly when [k + 1] has
    reached that threshold: never on an earlier frame. *)
Theorem C1_alarm_on_threshold_frame (cfg : Config) (s : State) (frames : list Input) :
  1 <= CONSEC_FRAMES_THRESHOLD cfg <= 2 ^ 53 ->
  alarmOn s = false ->
  closedEyeCounter s = 0 ->
  forallb (low_frame cfg) frames = true ->
  forall k : nat, (k < List.length frames)%nat ->
  exists s_k evs_k s' ev,
    run cfg (firstn k frames) s = Ok (s_k, evs_k)
    /\ step cfg (nth k frames StopClick) s_k = Ok (s', ev)
    /\ count_event is_alarm_started ev =
       (if Z.of_nat (S k) =? CONSEC_FRAMES_THRESHOLD cfg then 1%nat else 0%nat)
    /\ alarmOn s' = (CONSEC_FRAMES_THRESHOLD cfg <=? Z.of_nat (S k))
    /\ closedEyeCounter s' = Z.min (Z.of_nat (S k)) (2 ^ 53).
Proof.
  intros HN Ha Hc Hall k Hk.
  destruct (low_prefix cfg frames Hall k s ltac:(lia) ltac:(lia))
    as (s_k & evs_k & Hrun & Hck & Hak).
  assert (Hlow : low_frame cfg (nth k frames StopClick) = true).
  { apply (proj1 (forallb_forall _ _) Hall). now apply nth_In. }
  destruct (low_step cfg _ s_k Hlow) as (s' & ev & Hstep & Hc' & Ha' & Hev).
  exists s_k, evs_k, s', ev.
  rewrite Hc in Hck.
  assert (Hb : 0 <= closedEyeCounter s_k <= 2 ^ 53) by lia.
  rewrite (js_incr_bounds _ Hb) in Hc', Ha', Hev.
  assert (Hak' : alarmOn s_k = (CONSEC_FRAMES_THRESHOLD cfg <=? Z.of_nat k)).
  { destruct k as [|k'].
    - cbn in Hrun. injection Hrun as <- <-. rewrite Ha.
      symmetry. apply Z.leb_gt. lia.
    - rewrite Hak by congruence. rewrite Hck.
      destruct (Z.leb_spec (CONSEC_FRAMES_THRESHOLD cfg) (Z.min (0 + Z.of_nat (S k')) (2 ^ 53)));
        destruct (Z.leb_spec (CONSEC_FRAMES_THRESHOLD cfg) (Z.of_nat (S k'))); lia. }
  repeat split; try assumption.
  - rewrite Hev, Hak'.
    destruct (Z.leb_spec (CONSEC_FRAMES_THRESHOLD cfg) (Z.of_nat k));
      destruct (Z.leb_spec (CONSEC_FRAMES_THRESHOLD cfg) (Z.min (closedEyeCounter s_k + 1) (2 ^ 53)));
      destruct (Z.eqb_spec (Z.of_nat (S k)) (CONSEC_FRAMES_THRESHOLD cfg)); cbn; lia.
  - rewrite Ha'.
    destruct (Z.leb_spec (CONSEC_FRAMES_THRESHOLD cfg) (Z.min (closedEyeCounter s_k + 1) (2 ^ 53)));
      destruct (Z.leb_spec (CONSEC_FRAMES_THRESHOLD cfg) (Z.of_nat (S k))); lia.
  - lia.
Qed.

Lemma C1_alarm_on_threshold_frame_witness :
  exists s_k evs_k s' ev,
    run CONFIG (firstn 19 (repeat (Frame t0 closed_eyes) 25)) (initial None)
      = Ok (s_k, evs_k)
    /\ step CONFIG (nth 19 (repeat (Frame t0 closed_eyes) 25) StopClick) s_k
       = Ok (s', ev)
    /\ count_event is_alarm_started ev = 1%nat
    /\ alarmOn s' = true
    /\ closedEyeCounter s' = 20.
Proof.
  apply (C1_alarm_on_threshold_frame CONFIG (initial None)
           (repeat (Frame t0 closed_eyes) 25));
    [ cbn; lia | reflexivity | reflexivity | vm_compute; reflexivity | cbn; lia ].
Defined.

(** C2: a face-detected frame whose averaged EAR is at or above the threshold
    (the low test being the strict [<]) sets the counter to 0 and leaves the
    machine in AWAKE; if it was in ALARM this very frame emits
    [alarm_stopped] and silences the beep. *)
Theorem C2_recovery_resets_and_clears
  (cfg : Config) (now : Z) (r : Results) (ear : number) (s : State) :
  0 < CONSEC_FRAMES_THRESHOLD cfg ->
  frame_ear cfg r = Some ear ->
  leb (EAR_THRESHOLD cfg) ear = true ->
  exists s' ev,
    onResults cfg now r s = Ok (s', ev)
    /\ closedEyeCounter s' = 0
    /\ alarmOn s' = false
    /\ ev = (if alarmOn s then [alarm_stopped] else []).
Proof.
  intros HN Hear Hge.
  apply leb_not_ltb in Hge.
  rewrite (onResults_face cfg now r ear s Hear).
  destruct (onEAR_spec cfg now ear s) as (Hc & Ha & _ & He).
  rewrite Hge in Hc, Ha, He.
  assert (Hlt : (CONSEC_FRAMES_THRESHOLD cfg <=? 0) = false)
    by (apply Z.leb_gt; lia).
  rewrite Hlt in Ha, He.
  destruct (onEAR cfg now ear s) as [s' ev]; cbn in *.
  exists s', ev. auto.
Qed.

Lemma C2_recovery_resets_and_clears_witness :
  exists s' ev,
    onResults CONFIG t0 open_eyes alarmed = Ok (s', ev)
    /\ closedEyeCounter s' = 0
    /\ alarmOn s' = false
    /\ ev = [alarm_stopped].
Proof.
  apply (C2_recovery_resets_and_clears CONFIG t0 open_eyes
           (dyadic 1 (-1)) alarmed);
    [ cbn; lia | vm_compute; reflexivity | vm_compute; reflexivity ].
Defined.

(** C10: after any face-detected frame the alarm flag is true exactly when
    the counter has reached the consecutive-frame threshold, whatever the
    state was before. *)
Theorem C10_alarm_iff_counter_at_threshold
  (cfg : Config) (now : Z) (r : Results) (ear : number) (s : State) :
  frame_ear cfg r = Some ear ->
  exists s' ev,
    onResults cfg now r s = Ok (s', ev)
    /\ (alarmOn s' = true <-> CONSEC_FRAMES_THRESHOLD cfg <= closedEyeCounter s').
Proof.
  intros Hear.
  rewrite (onResults_face cfg now r ear s Hear).
  destruct (onEAR_spec cfg now ear s) as (Hc & Ha & _ & _).
  destruct (onEAR cfg now ear s) as [s' ev]; cbn in *.
  exists s', ev. split; [reflexivity|].
  rewrite Ha, Hc. apply Z.leb_le.
Qed.

Lemma C10_alarm_iff_counter_at_threshold_witness :
  exists s' ev,
    onResults CONFIG t0 closed_eyes five_low = Ok (s', ev)
    /\ (alarmOn s' = true <-> 20 <= closedEyeCounter s').
Proof.
  apply (C10_alarm_iff_counter_at_threshold CONFIG t0 closed_eyes zero five_low).
  vm_compute; reflexivity.
Defined.

(** C3, as the code has it: a frame without a face leaves the counter as it
    was.  The counter goes back to 0 only on a face-detected frame whose EAR
    is not below the threshold, or when the session stops. *)
Theorem C3_no_face_keeps_counter
  (cfg : Config) (now : Z) (r : Results) (s : State) :
  no_face r = true ->
  exists s',
    onResults cfg now r s = Ok (s', [])
    /\ closedEyeCounter s' = closedEyeCounter s.
Proof.
  intros Hno. rewrite (onResults_no_face cfg now r s Hno).
  destruct (onNoFace_spec s) as (Hc & _ & _ & _ & _ & _ & He).
  destruct (onNoFace s) as [s' ev]; cbn in *. subst ev.
  exists s'. auto.
Qed.

Lemma C3_no_face_keeps_counter_witness :
  exists s',
    onResults CONFIG t0 no_face_frame five_low = Ok (s', [])
    /\ closedEyeCounter s' = closedEyeCounter five_low.
Proof.
  apply (C3_no_face_keeps_counter CONFIG t0 no_face_frame five_low).
  reflexivity.
Defined.

(** C3 as stated fails: after five low frames the counter is 5, and a frame
    without a face leaves it at 5, not 0. *)
Lemma C3_counterexample :
  no_face no_face_frame = true
  /\ exists s' ev,
       onResults CONFIG t0 no_face_frame five_low = Ok (s', ev)
       /\ closedEyeCounter five_low = 5
       /\ closedEyeCounter s' = 5
       /\ closedEyeCounter s' <> 0.
Proof.
  split; [reflexivity|].
  eexists; eexists. split; [vm_compute; reflexivity|].
  repeat split; vm_compute; try reflexivity; discriminate.
Qed.

(** C4, as the code has it: in ALARM a frame without a face keeps the machine
    in ALARM: no event is emitted, the alarm flag, the overlay and the beep
    stay as they were. *)
Theorem C4_no_face_keeps_alarm
  (cfg : Config) (now : Z) (r : Results) (s : State) :
  no_face r = true ->
  alarmOn s = true ->
  exists s',
    onResults cfg now r s = Ok (s', [])
    /\ alarmOn s' = true
    /\ alertOverlay s' = alertOverlay s
    /\ alarmInterval s' = alarmInterval s
    /\ alarmOscillator s' = alarmOscillator s.
Proof.
  intros Hno Hon. rewrite (onResults_no_face cfg now r s Hno).
  destruct (onNoFace_spec s) as (_ & Ha & _ & Hi & Ho & Hv & He).
  destruct (onNoFace s) as [s' ev]; cbn in *. subst ev.
  exists s'. repeat split; congruence.
Qed.

Lemma C4_no_face_keeps_alarm_witness :
  exists s',
    onResults CONFIG t0 no_face_frame alarmed = Ok (s', [])
    /\ alarmOn s' = true
    /\ alertOverlay s' = alertOverlay alarmed
    /\ alarmInterval s' = alarmInterval alarmed
    /\ alarmOscillator s' = alarmOscillator alarmed.
Proof.
  apply (C4_no_face_keeps_alarm CONFIG t0 no_face_frame alarmed);
    [ reflexivity | vm_compute; reflexivity ].
Defined.

(** C4 as stated fails: twenty low frames put the machine in ALARM, and a
    frame without a face leaves it there, with no [alarm_stopped]. *)
Lemma C4_counterexample :
  alarmOn alarmed = true
  /\ no_face no_face_frame = true
  /\ exists s' ev,
       onResults CONFIG t0 no_face_frame alarmed = Ok (s', ev)
       /\ alarmOn s' = true
       /\ count_event is_alarm_stopped ev = 0%nat.
Proof.
  split; [vm_compute; reflexivity|]. split; [reflexivity|].
  eexists; eexists. split; [vm_compute; reflexivity|].
  split; reflexivity.
Qed.

(** ** Session stop *)

Ltac crush_bools :=
  repeat match goal with
    | H : (_, _) = (_, _) |- _ => injection H as <- <-
    | H : Ok _ = Ok _ |- _ => injection H as H
    | |- context [if ?b then _ else _] => destruct b eqn:?
    | H : context [if ?b then _ else _] |- _ => destruct b eqn:?
    | _ => progress (cbn in *; subst)
    | _ => congruence
    end.

Lemma audio_inv_initial (stored : option jsstring) :
  audio_inv (initial stored) = true.
Proof.
  unfold initial, loadSavedSettings, updateStatus, chain, modify, audio_inv; cbn.
  destruct stored as [r|]; cbn; [destruct (truthy r)|]; reflexivity.
Qed.

Ltac audio_tac s :=
  unfold audio_inv; unfold_acts; cbn;
  repeat (break_if; cbn);
  destruct (alarmInterval s) eqn:?, (alarmOn s) eqn:?,
    (alarmOscillator s) eqn:?;
  cbn in *; try congruence; auto.

Lemma audio_inv_onEAR (cfg : Config) (now : Z) (ear : number) (s : State) :
  audio_inv s = true -> audio_inv (fst (onEAR cfg now ear s)) = true.
Proof. audio_tac s. Qed.

Lemma audio_inv_onNoFace (s : State) :
  audio_inv s = true -> audio_inv (fst (onNoFace s)) = true.
Proof. audio_tac s. Qed.

Lemma audio_inv_step (cfg : Config) (i : Input) (s s' : State) (ev : list Event) :
  audio_inv s = true -> step cfg i s = Ok (s', ev) -> audio_inv s' = true.
Proof.
  intros Hinv Hstep. revert Hinv.
  destruct i as [ok| |now r|k o|created|value]; unfold step in Hstep.
  - injection Hstep as Hstep. apply (f_equal fst) in Hstep. cbn [fst] in Hstep.
    subst s'. destruct ok; audio_tac s.
  - injection Hstep as Hstep. apply (f_equal fst) in Hstep. cbn [fst] in Hstep.
    subst s'. audio_tac s.
  - unfold onResults in Hstep.
    destruct (multiFaceLandmarks r) as [[|l rest]|].
    + injection Hstep as Hstep. apply (f_equal fst) in Hstep.
      cbn [fst] in Hstep. subst s'. apply audio_inv_onNoFace.
    + destruct (avgEAR cfg l) as [ear|]; cbn [bind] in Hstep; [|discriminate].
      injection Hstep as Hstep. apply (f_equal fst) in Hstep.
      cbn [fst] in Hstep. subst s'. apply audio_inv_onEAR.
    + injection Hstep as Hstep. apply (f_equal fst) in Hstep.
      cbn [fst] in Hstep. subst s'. apply audio_inv_onNoFace.
  - injection Hstep as Hstep. apply (f_equal fst) in Hstep. cbn [fst] in Hstep.
    subst s'. unfold audio_inv, smsSettled.
    destruct (nth_error (smsInFlight s) k); [destruct o|]; cbn; auto.
  - injection Hstep as Hstep. apply (f_equal fst) in Hstep. cbn [fst] in Hstep.
    subst s'. unfold alarmTick. destruct created; audio_tac s.
  - injection Hstep as Hstep. apply (f_equal fst) in Hstep. cbn [fst] in Hstep.
    subst s'. unfold audio_inv, saveSettings.
    destruct (negb (truthy (trim value)) || (JsString.length (trim value) <? 10));
      cbn; auto.
Qed.

(** Every reachable state satisfies the audio invariant. *)
Lemma audio_inv_reachable (cfg : Config) (s : State) :
  reachable cfg s -> audio_inv s = true.
Proof.
  induction 1 as [stored|i s s' ev _ IH Hstep].
  - apply audio_inv_initial.
  - exact (audio_inv_step cfg i s s' ev IH Hstep).
Qed.

(** C7, as the code has it: stopping the session sets the counter to 0 and
    the alarm flag to false, emits [alarm_stopped] exactly when the machine was
    in ALARM, and leaves no beep timer and no oscillator; the time of the last
    notification is kept, not reset. *)
Theorem C7_stop_resets_counter_and_alarm (s : State) :
  audio_inv s = true ->
  let r := stopDetection s in
  closedEyeCounter (fst r) = 0
  /\ alarmOn (fst r) = false
  /\ lastSmsTime (fst r) = lastSmsTime s
  /\ snd r = (if alarmOn s then [alarm_stopped] else [])
  /\ alarmInterval (fst r) = false
  /\ alarmOscillator (fst r) = false
  /\ isRunning (fst r) = false.
Proof.
  unfold audio_inv. unfold_acts. cbn.
  repeat (break_if; cbn);
    destruct (alarmInterval s) eqn:?, (alarmOn s) eqn:?,
      (alarmOscillator s) eqn:?;
    cbn in *; try discriminate; intros _; repeat split; congruence.
Qed.

Lemma C7_stop_resets_counter_and_alarm_witness :
  let r := stopDetection notified in
  closedEyeCounter (fst r) = 0
  /\ alarmOn (fst r) = false
  /\ lastSmsTime (fst r) = lastSmsTime notified
  /\ snd r = (if alarmOn notified then [alarm_stopped] else [])
  /\ alarmInterval (fst r) = false
  /\ alarmOscillator (fst r) = false
  /\ isRunning (fst r) = false.
Proof.
  apply (C7_stop_resets_counter_and_alarm notified).
  vm_compute; reflexivity.
Defined.

(** C7 as stated fails on the notification time: after an acknowledged SMS
    sent at [t0], stopping the session leaves [lastSmsTime] at [t0], not at
    the epoch 0. *)
Lemma C7_counterexample :
  reachable CONFIG notified
  /\ lastSmsTime (fst (stopDetection notified)) = t0
  /\ lastSmsTime (fst (stopDetection notified)) <> 0.
Proof.
  split.
  - assert (H : forall inputs s evs,
               run CONFIG inputs (initial None) = Ok (s, evs) ->
               reachable CONFIG s).
    { intros inputs. generalize (reach_initial CONFIG None).
      generalize (initial None).
      induction inputs as [|i rest IH]; intros s0 Hs0 s evs Hrun; cbn in Hrun.
      - injection Hrun as <- _. exact Hs0.
      - destruct (step CONFIG i s0) as [[s1 l1]|] eqn:Hstep; cbn in Hrun;
          [|discriminate].
        destruct (run CONFIG rest s1) as [[s2 l2]|] eqn:Hrest; cbn in Hrun;
          [|discriminate].
        injection Hrun as <- _.
        exact (IH s1 (reach_step CONFIG i s0 s1 l1 Hs0 Hstep) s2 l2 Hrest). }
    apply (H (repeat (Frame t0 closed_eyes) 20 ++ [SmsSettled 0 response_ok])
             notified (events_of (repeat (Frame t0 closed_eyes) 20
                                    ++ [SmsSettled 0 response_ok]))).
    vm_compute; reflexivity.
  - split; [vm_compute; reflexivity|]. vm_compute. discriminate.
Qed.

(** ** The notifier *)

(** What [triggerAlarm] emits from AWAKE: the request goes out exactly when
    the last acknowledged success is at least one cooldown old. *)
Lemma triggerAlarm_events (cfg : Config) (now : Z) (s : State) :
  alarmOn s = false ->
  snd (triggerAlarm cfg now s) =
    alarm_started ::
      (if now - lastSmsTime s <? SMS_COOLDOWN_MS cfg
       then [sms_cooldown_skip]
       else [sms_request now (SMS_RECIPIENT s)])
  /\ smsInFlight (fst (triggerAlarm cfg now s)) =
     (if now - lastSmsTime s <? SMS_COOLDOWN_MS cfg
      then smsInFlight s
      else smsInFlight s ++ [now])
  /\ lastSmsTime (fst (triggerAlarm cfg now s)) = lastSmsTime s.
Proof.
  intros Hoff. unfold_acts. cbn. rewrite Hoff. cbn.
  repeat (break_if; cbn); repeat split; reflexivity.
Qed.

(** Only an ok response moves [lastSmsTime], to the [Date.now()] reading taken
    when that request was issued. *)
Lemma smsSettled_lastSmsTime (i : nat) (o : FetchOutcome) (s : State) (t : Z) :
  nth_error (smsInFlight s) i = Some t ->
  lastSmsTime (fst (smsSettled i o s)) =
    match o with response_ok => t | _ => lastSmsTime s end.
Proof.
  unfold smsSettled. intros ->. destruct o; reflexivity.
Qed.

(** C6, as the code has it: from AWAKE, [alarm_started] issues an SMS request
    exactly when [now - lastSmsTime] is at least the cooldown, [lastSmsTime]
    being the issue time of the last request answered with an ok response;
    otherwise the attempt is skipped with a log line only.  An ok response to
    the request issued at [t] sets [lastSmsTime] to [t], a failed one leaves
    it.  So a second [alarm_started] within the cooldown of an acknowledged
    success makes no attempt. *)
Theorem C6_sms_gated_by_last_success
  (cfg : Config) (t now : Z) (i : nat) (o : FetchOutcome) (s : State) :
  alarmOn s = false ->
  nth_error (smsInFlight s) i = Some t ->
  let s1 := fst (smsSettled i o s) in
  let ev := snd (triggerAlarm cfg now s1) in
  count_event is_alarm_started ev = 1%nat
  /\ lastSmsTime s1 = match o with response_ok => t | _ => lastSmsTime s end
  /\ (now - lastSmsTime s1 < SMS_COOLDOWN_MS cfg ->
      count_event is_sms_request ev = 0%nat
      /\ ev = [alarm_started; sms_cooldown_skip])
  /\ (SMS_COOLDOWN_MS cfg <= now - lastSmsTime s1 ->
      count_event is_sms_request ev = 1%nat
      /\ ev = [alarm_started; sms_request now (SMS_RECIPIENT s)]).
Proof.
  intros Hoff Hin s1 ev.
  assert (Hoff1 : alarmOn s1 = false).
  { subst s1. unfold smsSettled. rewrite Hin. destruct o; exact Hoff. }
  assert (Hrcp : SMS_RECIPIENT s1 = SMS_RECIPIENT s).
  { subst s1. unfold smsSettled. rewrite Hin. destruct o; reflexivity. }
  destruct (triggerAlarm_events cfg now s1 Hoff1) as (Hev & _ & _).
  fold ev in Hev. rewrite Hrcp in Hev.
  split.
  - rewrite Hev. now destruct (now - lastSmsTime s1 <? SMS_COOLDOWN_MS cfg).
  - split; [exact (smsSettled_lastSmsTime i o s t Hin)|].
    split; intros Hcmp; rewrite Hev.
    + apply Z.ltb_lt in Hcmp. rewrite Hcmp. split; reflexivity.
    + apply Z.ltb_ge in Hcmp. rewrite Hcmp. split; reflexivity.
Qed.

Lemma C6_sms_gated_by_last_success_witness :
  let s1 := fst (smsSettled 0 response_ok
                   (fst (onResults_ok (onResults CONFIG t0 open_eyes alarmed)))) in
  let ev := snd (triggerAlarm CONFIG (t0 + 1000) s1) in
  count_event is_alarm_started ev = 1%nat
  /\ lastSmsTime s1 = t0
  /\ (t0 + 1000 - lastSmsTime s1 < SMS_COOLDOWN_MS CONFIG ->
      count_event is_sms_request ev = 0%nat
      /\ ev = [alarm_started; sms_cooldown_skip])
  /\ (SMS_COOLDOWN_MS CONFIG <= t0 + 1000 - lastSmsTime s1 ->
      count_event is_sms_request ev = 1%nat
      /\ ev = [alarm_started; sms_request (t0 + 1000) DEFAULT_SMS_RECIPIENT]).
Proof.
  apply (C6_sms_gated_by_last_success CONFIG t0 (t0 + 1000) 0 response_ok
           (fst (onResults_ok (onResults CONFIG t0 open_eyes alarmed))));
    vm_compute; reflexivity.
Defined.

(** C6 as stated fails: the first request, issued at [t0], is answered with a
    failure; the eyes open and close again, and the second [alarm_started],
    one second after the first, issues a second request. *)
Lemma C6_counterexample :
  let inputs :=
    repeat (Frame t0 closed_eyes) 20
    ++ [SmsSettled 0 response_not_ok; Frame (t0 + 500) open_eyes]
    ++ repeat (Frame (t0 + 1000) closed_eyes) 20 in
  events_of inputs =
    [alarm_started; sms_request t0 DEFAULT_SMS_RECIPIENT;
     alarm_stopped;
     alarm_started; sms_request (t0 + 1000) DEFAULT_SMS_RECIPIENT]
  /\ (t0 + 1000) - t0 < SMS_COOLDOWN_MS CONFIG
  /\ count_event is_sms_request (events_of inputs) = 2%nat.
Proof.
  repeat split; vm_compute; reflexivity.
Qed.

(** ** Settings *)

Lemma with_plus_starts (recipient : jsstring) :
  startsWith (with_plus recipient) plus_sign = true.
Proof.
  unfold with_plus. destruct (startsWith recipient plus_sign) eqn:H; [exact H|].
  reflexivity.
Qed.

Lemma saveSettings_rejects (value : jsstring) (s : State) :
  JsString.length (trim value) < 10 ->
  saveSettings value s = (set_settingsStatus Settings_error s, []).
Proof.
  intros Hlen. unfold saveSettings.
  apply Z.ltb_lt in Hlen. rewrite Hlen. now rewrite orb_true_r.
Qed.

Lemma saveSettings_accepts (value : jsstring) (s : State) :
  10 <= JsString.length (trim value) ->
  saveSettings value s =
    (set_settingsStatus (Settings_success (with_plus (trim value)))
       (set_localStorage (Some (with_plus (trim value)))
          (set_SMS_RECIPIENT (with_plus (trim value)) s)), []).
Proof.
  intros Hlen. unfold saveSettings, with_plus.
  assert (Ht : truthy (trim value) = true).
  { destruct (trim value); [cbn in Hlen; lia | reflexivity]. }
  apply Z.ltb_ge in Hlen. rewrite Hlen, Ht. reflexivity.
Qed.

(** C8: saving a recipient whose trimmed text has fewer than 10 characters
    shows the error status and stores nothing, neither in [CONFIG] nor in
    [localStorage]; otherwise what is stored, in both places, is the trimmed
    text with "+" put in front when it did not start with one.  The input
    "7780643862" is stored as "+7780643862". *)
Theorem C8_recipient_normalized_or_rejected (value : jsstring) (s : State) :
  let s' := fst (saveSettings value s) in
  (JsString.length (trim value) < 10 ->
     settingsStatus s' = Settings_error
     /\ SMS_RECIPIENT s' = SMS_RECIPIENT s
     /\ localStorage s' = localStorage s)
  /\ (10 <= JsString.length (trim value) ->
     SMS_RECIPIENT s' = with_plus (trim value)
     /\ localStorage s' = Some (with_plus (trim value))
     /\ startsWith (with_plus (trim value)) plus_sign = true
     /\ settingsStatus s' = Settings_success (with_plus (trim value)))
  /\ localStorage (fst (saveSettings (lit "7780643862") s))
     = Some (lit "+7780643862").
Proof.
  cbn zeta. split; [|split].
  - intros Hlen. rewrite (saveSettings_rejects value s Hlen). cbn. auto.
  - intros Hlen. rewrite (saveSettings_accepts value s Hlen). cbn.
    repeat split; try reflexivity. apply with_plus_starts.
  - reflexivity.
Qed.

Lemma C8_recipient_normalized_or_rejected_witness :
  (JsString.length (trim (lit " 778064 ")) < 10
   /\ settingsStatus (fst (saveSettings (lit " 778064 ") alarmed)) = Settings_error
   /\ SMS_RECIPIENT (fst (saveSettings (lit " 778064 ") alarmed))
      = SMS_RECIPIENT alarmed
   /\ localStorage (fst (saveSettings (lit " 778064 ") alarmed))
      = localStorage alarmed)
  /\ (10 <= JsString.length (trim (lit "7780643862"))
      /\ localStorage (fst (saveSettings (lit "7780643862") alarmed))
         = Some (with_plus (trim (lit "7780643862")))).
Proof.
  split.
  - assert (H : JsString.length (trim (lit " 778064 ")) < 10)
      by (vm_compute; reflexivity).
    split; [exact H|].
    exact (proj1 (C8_recipient_normalized_or_rejected (lit " 778064 ") alarmed) H).
  - assert (H : 10 <= JsString.length (trim (lit "7780643862")))
      by (vm_compute; discriminate).
    split; [exact H|].
    exact (proj1 (proj2 (proj1 (proj2
             (C8_recipient_normalized_or_rejected (lit "7780643862") alarmed)) H))).
Defined.

(** * Floating-point facts *)

(** ** Binary digits *)

Lemma digits2_pos_bounds (p : positive) :
  2 ^ (Zpos (digits2_pos p) - 1) <= Zpos p < 2 ^ Zpos (digits2_pos p).
Proof.
  induction p as [p IH|p IH|]; cbn [digits2_pos].
  - rewrite Pos2Z.inj_succ.
    replace (Z.succ (Zpos (digits2_pos p)) - 1) with (Z.succ (Zpos (digits2_pos p) - 1)) by lia.
    rewrite !Z.pow_succ_r by lia. lia.
  - rewrite Pos2Z.inj_succ.
    replace (Z.succ (Zpos (digits2_pos p)) - 1) with (Z.succ (Zpos (digits2_pos p) - 1)) by lia.
    rewrite !Z.pow_succ_r by lia. lia.
  - cbn. lia.
Qed.

Lemma Zdigits2_nonneg (z : Z) : 0 <= Zdigits2 z.
Proof. destruct z; cbn; lia. Qed.

Lemma Zdigits2_pos (z : Z) : 0 < z -> 1 <= Zdigits2 z.
Proof. destruct z; cbn; lia. Qed.

(** [z < 2^k] says that [z] has at most [k] digits. *)
Lemma Zdigits2_le (z k : Z) : 0 <= z -> 0 <= k -> (Zdigits2 z <= k <-> z < 2 ^ k).
Proof.
  intros Hz Hk. destruct z as [|p|p]; try lia.
  - cbn. split; intros _; [apply Z.pow_pos_nonneg|]; lia.
  - cbn [Zdigits2]. pose proof (digits2_pos_bounds p) as [Hlo Hhi]. split; intros H.
    + apply Z.lt_le_trans with (1 := Hhi). apply Z.pow_le_mono_r; lia.
    + destruct (Z.le_gt_cases (Zpos (digits2_pos p)) k) as [|Hgt]; [assumption|].
      assert (2 ^ k <= 2 ^ (Zpos (digits2_pos p) - 1)) by (apply Z.pow_le_mono_r; lia).
      lia.
Qed.

(** [2^(k-1) <= z] says that [z] has at least [k] digits. *)
Lemma Zdigits2_ge (z k : Z) : 0 <= z -> 1 <= k -> (k <= Zdigits2 z <-> 2 ^ (k - 1) <= z).
Proof.
  intros Hz Hk.
  pose proof (Zdigits2_le z (k - 1) Hz ltac:(lia)). lia.
Qed.

Lemma Zdigits2_mono (a b : Z) : 0 <= a <= b -> Zdigits2 a <= Zdigits2 b.
Proof.
  intros H. apply (Zdigits2_le a (Zdigits2 b)); try lia.
  - apply Zdigits2_nonneg.
  - pose proof (proj1 (Zdigits2_le b (Zdigits2 b) ltac:(lia) (Zdigits2_nonneg b)) (Z.le_refl _)).
    lia.
Qed.

Lemma Zdigits2_succ (a : Z) : 0 <= a -> Zdigits2 (a + 1) <= Zdigits2 a + 1.
Proof.
  intros Ha. apply Zdigits2_le; try lia.
  - pose proof (Zdigits2_nonneg a). lia.
  - pose proof (proj1 (Zdigits2_le a (Zdigits2 a) Ha (Zdigits2_nonneg a)) (Z.le_refl _)).
    rewrite Z.pow_add_r by (try apply Zdigits2_nonneg; lia). lia.
Qed.

Lemma Zdigits2_shiftr (a n : Z) :
  0 <= a -> 0 <= n -> Zdigits2 (Z.shiftr a n) = Z.max 0 (Zdigits2 a - n).
Proof.
  intros Ha Hn. rewrite Z.shiftr_div_pow2 by assumption.
  assert (H2 : 0 < 2 ^ n) by (apply Z.pow_pos_nonneg; lia).
  assert (Hq : 0 <= a / 2 ^ n) by (apply Z.div_pos; lia).
  pose proof (Zdigits2_nonneg a) as Hd.
  pose proof (Zdigits2_nonneg (a / 2 ^ n)) as Hdq.
  assert (Hle : forall k, 0 <= k -> (Zdigits2 (a / 2 ^ n) <= k <-> Zdigits2 a <= k + n)).
  { intros k Hk. rewrite (Zdigits2_le (a / 2 ^ n) k), (Zdigits2_le a (k + n)) by lia.
    rewrite Z.pow_add_r by lia. split; intros H.
    - pose proof (Z.mul_div_le a (2 ^ n) H2).
      pose proof (Z.mod_pos_bound a (2 ^ n) H2).
      pose proof (Z.div_mod a (2 ^ n) ltac:(lia)). nia.
    - apply Z.div_lt_upper_bound; lia. }
  destruct (Z.le_gt_cases (Zdigits2 a - n) 0).
  - rewrite Z.max_l by lia. apply Z.le_antisymm; [|assumption].
    apply (Hle 0); lia.
  - rewrite Z.max_r by lia. apply Z.le_antisymm.
    + apply (Hle (Zdigits2 a - n)); lia.
    + destruct (Z.le_gt_cases (Zdigits2 a - n) (Zdigits2 (a / 2 ^ n))); [assumption|].
      pose proof (proj1 (Hle (Zdigits2 (a / 2 ^ n)) Hdq) (Z.le_refl _)). lia.
Qed.

Lemma Zdigits2_shiftl (a n : Z) :
  0 < a -> 0 <= n -> Zdigits2 (a * 2 ^ n) = Zdigits2 a + n.
Proof.
  intros Ha Hn.
  assert (H2 : 0 < 2 ^ n) by (apply Z.pow_pos_nonneg; lia).
  pose proof (Zdigits2_pos a Ha) as Hd.
  pose proof (proj1 (Zdigits2_le a (Zdigits2 a) ltac:(lia) ltac:(lia)) (Z.le_refl _)) as Hhi.
  pose proof (proj1 (Zdigits2_ge a (Zdigits2 a) ltac:(lia) ltac:(lia)) (Z.le_refl _)) as Hlo.
  apply Z.le_antisymm.
  - apply Zdigits2_le; try nia. rewrite Z.pow_add_r by lia. nia.
  - apply Zdigits2_ge; try nia.
    replace (Zdigits2 a + n - 1) with (Zdigits2 a - 1 + n) by lia.
    rewrite Z.pow_add_r by lia. nia.
Qed.

Lemma Zdigits2_mul (a b : Z) :
  0 < a -> 0 < b -> Zdigits2 (a * b) <= Zdigits2 a + Zdigits2 b.
Proof.
  intros Ha Hb.
  pose proof (Zdigits2_pos a Ha). pose proof (Zdigits2_pos b Hb).
  pose proof (proj1 (Zdigits2_le a (Zdigits2 a) ltac:(lia) ltac:(lia)) (Z.le_refl _)).
  pose proof (proj1 (Zdigits2_le b (Zdigits2 b) ltac:(lia) ltac:(lia)) (Z.le_refl _)).
  apply Zdigits2_le; try nia. rewrite Z.pow_add_r by lia. nia.
Qed.

(** ** Rounding *)

Lemma shr_1_m (mrs : shr_record) :
  0 <= shr_m mrs -> shr_m (shr_1 mrs) = Z.shiftr (shr_m mrs) 1.
Proof.
  destruct mrs as [m r s]. cbn [shr_m]. intros Hm.
  rewrite <- Z.div2_spec.
  destruct m as [|[p|p|]|p]; try lia; reflexivity.
Qed.

Lemma iter_shr_1_m (p : positive) :
  forall mrs, 0 <= shr_m mrs ->
    shr_m (iter_pos shr_1 p mrs) = Z.shiftr (shr_m mrs) (Zpos p).
Proof.
  assert (Hnn : forall a n, 0 <= a -> 0 <= n -> 0 <= Z.shiftr a n).
  { intros a n Ha Hn. now apply Z.shiftr_nonneg. }
  induction p as [p IH|p IH|]; intros mrs Hm; cbn [iter_pos].
  - rewrite IH, IH, shr_1_m; try assumption.
    + rewrite !Z.shiftr_shiftr by lia. f_equal. lia.
    + rewrite shr_1_m by assumption. apply Hnn; lia.
    + rewrite IH, shr_1_m; try assumption.
      * apply Hnn; [apply Hnn|]; lia.
      * rewrite shr_1_m by assumption. apply Hnn; lia.
  - rewrite IH, IH; try assumption.
    + rewrite !Z.shiftr_shiftr by lia. f_equal. lia.
    + rewrite IH by assumption. apply Hnn; lia.
  - now apply shr_1_m.
Qed.

Lemma shr_spec (mrs mrs' : shr_record) (e e' n : Z) :
  0 <= shr_m mrs ->
  shr mrs e n = (mrs', e') ->
  shr_m mrs' = Z.shiftr (shr_m mrs) (Z.max 0 n) /\ e' = e + Z.max 0 n.
Proof.
  intros Hm. unfold shr. destruct n as [|p|p]; intros H; injection H as <- <-.
  - cbn. split; lia.
  - rewrite iter_shr_1_m by assumption. rewrite Z.max_r by lia. split; lia.
  - rewrite Z.max_l by lia. cbn. split; lia.
Qed.

Lemma shr_fexp_spec (m e e' : Z) (l : location) (mrs : shr_record) :
  0 <= m ->
  shr_fexp prec emax m e l = (mrs, e') ->
  let n := Z.max 0 (fexp prec emax (Zdigits2 m + e) - e) in
  shr_m mrs = Z.shiftr m n /\ e' = e + n.
Proof.
  intros Hm H. unfold shr_fexp in H.
  apply shr_spec in H.
  - replace (shr_m (shr_record_of_loc m l)) with m in H; [exact H|].
    destruct l as [|[ | | ]]; reflexivity.
  - destruct l as [|[ | | ]]; exact Hm.
Qed.

Lemma round_nearest_even_bounds (m : Z) (l : location) :
  m <= round_nearest_even m l <= m + 1.
Proof.
  unfold round_nearest_even. destruct l as [|[ | | ]]; try lia.
  destruct (Z.even m); lia.
Qed.

Lemma fexp_eq (d : Z) : fexp prec emax d = Z.max (d - 53) (-1074).
Proof. reflexivity. Qed.

(** What [binary_round_aux] returns on a non-negative mantissa: never NaN,
    the sign asked for, an exponent of at least -1074, and a magnitude within
    one binade of the input's. *)
Lemma binary_round_aux_spec (s : bool) (m e : Z) (l : location) :
  0 <= m ->
  let d := Zdigits2 m + e in
  match binary_round_aux prec emax s m e l with
  | S754_zero s' => s' = s /\ (m = 0 \/ d <= -1074)
  | S754_infinity s' => s' = s /\ (971 < e \/ 1023 < d)
  | S754_finite s' m3 e3 =>
      s' = s /\ -1074 <= e3
      /\ Zpos (digits2_pos m3) + e3 <= Z.max d (-1074) + 1
      /\ (0 < m -> -1074 < d -> d <= Zpos (digits2_pos m3) + e3)
  | S754_nan => False
  end.
Proof.
  intros Hm d. unfold binary_round_aux.
  destruct (shr_fexp prec emax m e l) as [mrs1 e1] eqn:H1.
  apply shr_fexp_spec in H1; [|assumption]. destruct H1 as [Hm1 He1].
  set (n1 := Z.max 0 (fexp prec emax (Zdigits2 m + e) - e)) in *.
  pose proof (round_nearest_even_bounds (shr_m mrs1) (loc_of_shr_record mrs1)) as Hr.
  set (m2 := round_nearest_even (shr_m mrs1) (loc_of_shr_record mrs1)) in *.
  assert (Hm1nn : 0 <= shr_m mrs1).
  { rewrite Hm1. apply Z.shiftr_nonneg. lia. }
  destruct (shr_fexp prec emax m2 e1 loc_Exact) as [mrs3 e3] eqn:H3.
  apply shr_fexp_spec in H3; [|lia]. destruct H3 as [Hm3 He3].
  set (n2 := Z.max 0 (fexp prec emax (Zdigits2 m2 + e1) - e1)) in *.
  assert (Hd1 : Zdigits2 (shr_m mrs1) = Z.max 0 (Zdigits2 m - n1)).
  { rewrite Hm1. apply Zdigits2_shiftr; lia. }
  assert (Hd3 : Zdigits2 (shr_m mrs3) = Z.max 0 (Zdigits2 m2 - n2)).
  { rewrite Hm3. apply Zdigits2_shiftr; lia. }
  assert (Hd2lo : Zdigits2 (shr_m mrs1) <= Zdigits2 m2) by (apply Zdigits2_mono; lia).
  assert (Hd2hi : Zdigits2 m2 <= Zdigits2 (shr_m mrs1) + 1).
  { etransitivity; [|apply Zdigits2_succ; lia]. apply Zdigits2_mono; lia. }
  pose proof (Zdigits2_nonneg m) as Hdm.
  assert (Hdpos : 0 < m -> 1 <= Zdigits2 m) by apply Zdigits2_pos.
  assert (Hm3nn : 0 <= shr_m mrs3).
  { rewrite Hm3. apply Z.shiftr_nonneg. lia. }
  subst n1 n2. rewrite !fexp_eq in *.
  destruct (shr_m mrs3) as [|p3|p3] eqn:Ep3; [ | |lia].
  - split; [reflexivity|]. cbn [Zdigits2] in Hd3.
    destruct (Z.eq_dec m 0) as [|Hne]; [now left|right].
    specialize (Hdpos ltac:(lia)). subst d. lia.
  - cbn [Zdigits2] in Hd3.
    change (emax - prec) with 971.
    destruct (Z.leb_spec e3 971) as [Hle|Hgt].
    + subst d. repeat split; try lia;
        intros Hpos Hd; specialize (Hdpos Hpos); lia.
    + split; [reflexivity|]. subst d. lia.
Qed.

Lemma iter_xO_pow (m p : positive) :
  Zpos (Pos.iter xO m p) = Zpos m * 2 ^ Zpos p.
Proof.
  induction p as [|p IH] using Pos.peano_ind.
  - cbn. lia.
  - rewrite Pos.iter_succ, Pos2Z.inj_succ, Z.pow_succ_r by lia.
    rewrite Pos2Z.inj_xO, IH. lia.
Qed.

(** [shl_align] keeps the value and never raises the exponent. *)
Lemma shl_align_spec (mx : positive) (ex ex' : Z) :
  let (mz, ez) := shl_align mx ex ex' in
  ez = Z.min ex ex' /\ Zpos mz = Zpos mx * 2 ^ (ex - ez).
Proof.
  unfold shl_align. destruct (ex' - ex) as [|p|p] eqn:E.
  - split; [lia|]. replace (ex - ex) with 0 by lia. cbn. lia.
  - split; [lia|]. replace (ex - ex) with 0 by lia. cbn. lia.
  - split; [lia|]. rewrite iter_xO_pow. f_equal. f_equal. lia.
Qed.

Lemma binary_round_spec (s : bool) (mx : positive) (ex : Z) :
  let d := Zpos (digits2_pos mx) + ex in
  match binary_round prec emax s mx ex with
  | S754_zero s' => s' = s /\ d <= -1074
  | S754_infinity s' => s' = s /\ 1023 < d
  | S754_finite s' m3 e3 =>
      s' = s /\ -1074 <= e3
      /\ Zpos (digits2_pos m3) + e3 <= Z.max d (-1074) + 1
      /\ (-1074 < d -> d <= Zpos (digits2_pos m3) + e3)
  | S754_nan => False
  end.
Proof.
  intros d. unfold binary_round.
  pose proof (shl_align_spec mx ex (fexp prec emax (Zpos (digits2_pos mx) + ex))) as Ha.
  destruct (shl_align mx ex (fexp prec emax (Zpos (digits2_pos mx) + ex))) as [mz ez].
  destruct Ha as [Hez Hmz].
  assert (Hd : Zdigits2 (Zpos mz) + ez = d).
  { rewrite Hmz, Zdigits2_shiftl by lia. cbn [Zdigits2]. subst d. lia. }
  pose proof (binary_round_aux_spec s (Zpos mz) ez loc_Exact ltac:(lia)) as Hr.
  cbv zeta in Hr. rewrite Hd in Hr. rewrite fexp_eq in Hez. fold d in Hez.
  destruct (binary_round_aux prec emax s (Zpos mz) ez loc_Exact) as [s'|s'| |s' m3 e3];
    try assumption.
  - destruct Hr as [-> Hr]. split; [reflexivity|]. lia.
  - destruct Hr as [-> Hr]. split; [reflexivity|]. lia.
  - destruct Hr as (-> & He3 & Hhi & Hlo). repeat split; try lia; intros; apply Hlo; lia.
Qed.

Lemma binary_normalize_spec (z e : Z) (szero : bool) :
  let d := Zdigits2 z + e in
  match binary_normalize prec emax z e szero with
  | S754_zero s' => z = 0 /\ s' = szero \/ z <> 0 /\ s' = (z <? 0) /\ d <= -1074
  | S754_infinity s' => s' = (z <? 0) /\ 1023 < d
  | S754_finite s' m3 e3 =>
      z <> 0 /\ s' = (z <? 0) /\ -1074 <= e3
      /\ Zpos (digits2_pos m3) + e3 <= Z.max d (-1074) + 1
      /\ (-1074 < d -> d <= Zpos (digits2_pos m3) + e3)
  | S754_nan => False
  end.
Proof.
  intros d. unfold binary_normalize. destruct z as [|p|p].
  - now left.
  - pose proof (binary_round_spec false p e) as Hr. cbv zeta in Hr.
    destruct (binary_round prec emax false p e); try assumption.
    + right. repeat split; try lia; apply Hr.
    + repeat split; try lia; apply Hr.
  - pose proof (binary_round_spec true p e) as Hr. cbv zeta in Hr.
    destruct (binary_round prec emax true p e); try assumption.
    + right. repeat split; try lia; apply Hr.
    + repeat split; try lia; apply Hr.
Qed.

(** ** Signs: squares, their sums, square roots and quotients are never
    negative *)

Lemma sign_round_aux (s : bool) (m e : Z) (l : location) :
  0 <= m -> sign_bit (binary_round_aux prec emax s m e l) = s
            /\ is_nan (binary_round_aux prec emax s m e l) = false.
Proof.
  intros Hm. pose proof (binary_round_aux_spec s m e l Hm) as Hr. cbv zeta in Hr.
  destruct (binary_round_aux prec emax s m e l); cbn; try tauto; split; (reflexivity || apply Hr).
Qed.

Lemma sign_pow2 (v : number) : sign_bit (pow2 v) = false.
Proof.
  unfold pow2, mul. destruct v as [[]|[]| |s m e]; cbn [SFmul sign_bit];
    try reflexivity.
  replace false with (xorb s s) by now destruct s.
  apply sign_round_aux. lia.
Qed.

Lemma sign_add (a b : number) :
  sign_bit a = false -> sign_bit b = false -> sign_bit (add a b) = false.
Proof.
  unfold add.
  destruct a as [sa|sa| |sa ma ea], b as [sb|sb| |sb mb eb]; cbn [sign_bit];
    intros Ha Hb; subst; try reflexivity.
  cbn [SFadd cond_Zopp].
  pose proof (binary_normalize_spec
                (Zpos (fst (shl_align ma ea (Z.min ea eb)))
                 + Zpos (fst (shl_align mb eb (Z.min ea eb))))
                (Z.min ea eb) false) as Hr.
  cbv zeta in Hr.
  assert (Hz : (Zpos (fst (shl_align ma ea (Z.min ea eb)))
                + Zpos (fst (shl_align mb eb (Z.min ea eb))) <? 0) = false)
    by (apply Z.ltb_ge; lia).
  rewrite Hz in Hr.
  destruct (binary_normalize _ _ _ _ _); cbn [sign_bit]; try reflexivity.
  - destruct Hr as [[H _]|[_ [H _]]]; [lia|exact H].
  - apply Hr.
  - apply Hr.
Qed.

Lemma sign_sqrt (a : number) : sign_bit a = false -> sign_bit (sqrt a) = false.
Proof.
  unfold sqrt. destruct a as [s|s| |s m e]; cbn [sign_bit]; intros Hs; subst;
    try reflexivity.
  cbn [SFsqrt].
  destruct (SFsqrt_core_binary prec emax (Zpos m) e) as [[mz ez] lz] eqn:E.
  apply sign_round_aux.
  unfold SFsqrt_core_binary in E.
  match type of E with
  | (let (q, r) := Z.sqrtrem ?x in _) = _ =>
      pose proof (Z.sqrtrem_sqrt x) as Hs; destruct (Z.sqrtrem x) as [q r]
  end.
  cbn [fst] in Hs. injection E as <- _ _. subst q. apply Z.sqrt_nonneg.
Qed.

Lemma distance_pt_sign (p q : Point) : sign_bit (distance_pt p q) = false.
Proof.
  unfold distance_pt. apply sign_sqrt, sign_add; apply sign_pow2.
Qed.

Lemma sign_div (a b : number) :
  sign_bit a = false -> sign_bit b = false -> sign_bit (div a b) = false.
Proof.
  unfold div.
  destruct a as [sa|sa| |sa ma ea], b as [sb|sb| |sb mb eb]; cbn [sign_bit];
    intros Ha Hb; subst; try reflexivity.
  cbn [SFdiv xorb].
  destruct (SFdiv_core_binary prec emax (Zpos ma) ea (Zpos mb) eb) as [[mz ez] lz] eqn:E.
  apply sign_round_aux.
  unfold SFdiv_core_binary in E.
  match type of E with
  | (let (q, r) := Z.div_eucl ?x ?y in _) = _ =>
      pose proof (Z_div_mod x y ltac:(lia)) as Hs;
      assert (Hx : 0 <= x); [|destruct (Z.div_eucl x y) as [q r]]
  end.
  - match goal with
    | |- 0 <= match ?s with _ => _ end => destruct s; try lia
    end.
    apply Z.shiftl_nonneg. lia.
  - injection E as <- _ _. destruct Hs as [Hs Hr]. nia.
Qed.

Lemma sign_mul_two (c : number) :
  sign_bit c = false -> sign_bit (mul (of_Z 2) c) = false.
Proof.
  unfold mul. change (of_Z 2) with (S754_finite false 4503599627370496 (-51)).
  destruct c as [s|s| |s m e]; cbn [sign_bit]; intros Hs; subst; try reflexivity.
  cbn [SFmul xorb]. apply sign_round_aux. lia.
Qed.

(** ** Eyes whose landmarks are all there *)

Lemma calculateEAR_present (landmarks : list Point) (eyeIndices : list nat) :
  eye_present landmarks eyeIndices = true ->
  exists p0 p1 p2 p3 p4 p5,
    calculateEAR (getEyeLandmarks landmarks eyeIndices)
    = Ok (div (add (distance_pt p1 p5) (distance_pt p2 p4))
              (mul (of_Z 2) (distance_pt p0 p3)))
    /\ horizontal landmarks eyeIndices = Ok (distance_pt p0 p3).
Proof.
  unfold eye_present, horizontal, calculateEAR. cbn [forallb].
  set (eye := getEyeLandmarks landmarks eyeIndices).
  destruct (at_index eye 0) as [p0|]; [|discriminate].
  destruct (at_index eye 1) as [p1|]; [|discriminate].
  destruct (at_index eye 2) as [p2|]; [|discriminate].
  destruct (at_index eye 3) as [p3|]; [|discriminate].
  destruct (at_index eye 4) as [p4|]; [|discriminate].
  destruct (at_index eye 5) as [p5|]; [|discriminate].
  intros _. exists p0, p1, p2, p3, p4, p5. split; reflexivity.
Qed.

(** With every landmark there, no step of the arithmetic throws. *)
Lemma avgEAR_present (cfg : Config) (landmarks : list Point) :
  eyes_present cfg landmarks = true ->
  exists rightEAR leftEAR,
    calculateEAR (getEyeLandmarks landmarks (RIGHT_EYE cfg)) = Ok rightEAR
    /\ calculateEAR (getEyeLandmarks landmarks (LEFT_EYE cfg)) = Ok leftEAR
    /\ avgEAR cfg landmarks = Ok (div (add rightEAR leftEAR) (of_Z 2)).
Proof.
  unfold eyes_present. intros H. apply andb_prop in H as [Hr Hl].
  destruct (calculateEAR_present _ _ Hr) as (? & ? & ? & ? & ? & ? & Hr' & _).
  destruct (calculateEAR_present _ _ Hl) as (? & ? & ? & ? & ? & ? & Hl' & _).
  eexists; eexists. split; [exact Hr'|]. split; [exact Hl'|].
  unfold avgEAR. rewrite Hr', Hl'. reflexivity.
Qed.

(** ** Division by a zero horizontal distance *)

Lemma div_by_zero_distance (n c : number) :
  sign_bit n = false -> sign_bit c = false -> is_zero c = true ->
  nan_or_pinf (div n (mul (of_Z 2) c)) = true.
Proof.
  destruct c as [[]| | |]; cbn; try discriminate. intros Hn _ _.
  destruct n as [[]|[]| |[] m e]; cbn in *; try discriminate; reflexivity.
Qed.

Lemma add_nan_or_pinf_l (a b : number) :
  nan_or_pinf a = true -> nan_or_pinf (add a b) = true.
Proof.
  destruct a as [|[]| |]; cbn; try discriminate; intros _;
    destruct b as [[]|[]| |[] m e]; reflexivity.
Qed.

Lemma add_nan_or_pinf_r (a b : number) :
  nan_or_pinf b = true -> nan_or_pinf (add a b) = true.
Proof.
  destruct b as [|[]| |]; cbn; try discriminate; intros _;
    destruct a as [[]|[]| |[] m e]; reflexivity.
Qed.

Lemma half_nan_or_pinf (a : number) :
  nan_or_pinf a = true -> nan_or_pinf (div a (of_Z 2)) = true.
Proof.
  destruct a as [|[]| |]; cbn; try discriminate; reflexivity.
Qed.

Lemma ltb_nan_or_pinf (a t : number) : nan_or_pinf a = true -> ltb a t = false.
Proof.
  intros H. destruct a as [|[]| |]; try discriminate H.
  - apply ltb_pinf_l.
  - apply ltb_nan_l.
Qed.

(** The averaged EAR of a face with a collapsed eye is NaN or +Infinity. *)
Lemma degenerate_ear (cfg : Config) (landmarks : list Point) :
  eyes_present cfg landmarks = true ->
  degenerate cfg landmarks = true ->
  exists ear, avgEAR cfg landmarks = Ok ear /\ nan_or_pinf ear = true.
Proof.
  unfold eyes_present, degenerate. intros H Hdeg.
  apply andb_prop in H as [Hr Hl].
  destruct (calculateEAR_present _ _ Hr) as (r0 & r1 & r2 & r3 & r4 & r5 & Hr' & Hhr).
  destruct (calculateEAR_present _ _ Hl) as (l0 & l1 & l2 & l3 & l4 & l5 & Hl' & Hhl).
  rewrite Hhr, Hhl in Hdeg.
  unfold avgEAR. rewrite Hr', Hl'. cbn [bind].
  eexists. split; [reflexivity|].
  apply half_nan_or_pinf.
  apply orb_prop in Hdeg as [Hz|Hz].
  - apply add_nan_or_pinf_l, div_by_zero_distance; try assumption.
    + apply sign_add; apply distance_pt_sign.
    + apply distance_pt_sign.
  - apply add_nan_or_pinf_r, div_by_zero_distance; try assumption.
    + apply sign_add; apply distance_pt_sign.
    + apply distance_pt_sign.
Qed.

(** C5, as the code has it: a face-detected frame in which an eye has zero
    horizontal distance is processed without an exception; its averaged EAR
    is NaN or +Infinity, which is not below the threshold, so the frame sets
    the counter to 0 (it does not leave it unchanged). *)
Theorem C5_degenerate_eye_resets_counter
  (cfg : Config) (now : Z) (r : Results) (landmarks : list Point) (s : State) :
  detected_face r = Some landmarks ->
  eyes_present cfg landmarks = true ->
  degenerate cfg landmarks = true ->
  exists ear s' ev,
    frame_ear cfg r = Some ear
    /\ nan_or_pinf ear = true
    /\ ltb ear (EAR_THRESHOLD cfg) = false
    /\ onResults cfg now r s = Ok (s', ev)
    /\ closedEyeCounter s' = 0.
Proof.
  intros Hface Hpresent Hdeg.
  destruct (degenerate_ear cfg landmarks Hpresent Hdeg) as (ear & Hear & Hinf).
  assert (Hfe : frame_ear cfg r = Some ear).
  { unfold frame_ear. now rewrite Hface, Hear. }
  pose proof (ltb_nan_or_pinf ear (EAR_THRESHOLD cfg) Hinf) as Hlt.
  destruct (onEAR_spec cfg now ear s) as (Hc & _).
  rewrite Hlt in Hc.
  exists ear, (fst (onEAR cfg now ear s)), (snd (onEAR cfg now ear s)).
  repeat split; try assumption.
  rewrite (onResults_face cfg now r ear s Hfe). now destruct (onEAR cfg now ear s).
Qed.

Lemma C5_degenerate_eye_resets_counter_witness :
  exists ear s' ev,
    frame_ear CONFIG collapsed = Some ear
    /\ nan_or_pinf ear = true
    /\ ltb ear (EAR_THRESHOLD CONFIG) = false
    /\ onResults CONFIG t0 collapsed five_low = Ok (s', ev)
    /\ closedEyeCounter s' = 0.
Proof.
  apply (C5_degenerate_eye_resets_counter CONFIG t0 collapsed
           (face_of (fun _ => pt (dyadic 1 (-1)) (dyadic 1 (-1))) 468) five_low);
    vm_compute; reflexivity.
Defined.

(** C5 as stated fails on the counter: after five low frames the counter is
    5; a frame with all landmarks on one point is processed without an
    exception and leaves the counter at 0, not at 5. *)
Lemma C5_counterexample :
  degenerate CONFIG (face_of (fun _ => pt (dyadic 1 (-1)) (dyadic 1 (-1))) 468) = true
  /\ closedEyeCounter five_low = 5
  /\ exists s' ev,
       onResults CONFIG t0 collapsed five_low = Ok (s', ev)
       /\ closedEyeCounter s' = 0
       /\ closedEyeCounter s' <> closedEyeCounter five_low.
Proof.
  split; [vm_compute; reflexivity|]. split; [vm_compute; reflexivity|].
  eexists; eexists. split; [vm_compute; reflexivity|].
  split; [reflexivity|]. vm_compute. discriminate.
Qed.

(** ** Magnitudes through the operations *)

Lemma mag_le_mono (k k' : Z) (v : number) :
  k <= k' -> mag_le k v = true -> mag_le k' v = true.
Proof.
  destruct v; cbn; try congruence. intros Hk H.
  apply Z.leb_le. apply Z.leb_le in H. lia.
Qed.


Lemma Zdigits2_abs (z : Z) : Zdigits2 (Z.abs z) = Zdigits2 z.
Proof. destruct z; reflexivity. Qed.

Lemma Zdigits2_self (z : Z) : 0 <= z -> z < 2 ^ Zdigits2 z.
Proof.
  intros Hz. apply Zdigits2_le; try lia. apply Zdigits2_nonneg.
Qed.

Lemma binary_normalize_mag (z e k : Z) :
  Zdigits2 z + e <= k -> -1074 <= k <= 1023 ->
  mag_le (k + 1) (binary_normalize prec emax z e false) = true
  /\ exp_ok (binary_normalize prec emax z e false) = true.
Proof.
  intros Hd Hk.
  pose proof (binary_normalize_spec z e false) as Hr. cbv zeta in Hr.
  destruct (binary_normalize prec emax z e false); cbn [mag_le exp_ok]; try tauto.
  - destruct Hr as [_ Hr]. lia.
  - destruct Hr as (_ & _ & He & Hm & _). split; apply Z.leb_le; lia.
Qed.

(** The mantissas of a sum or difference, once aligned. *)
Lemma aligned_digits (sx sy : bool) (mx my : positive) (ex ey k : Z) (sub : bool) :
  Zpos (digits2_pos mx) + ex <= k ->
  Zpos (digits2_pos my) + ey <= k ->
  let ez := Z.min ex ey in
  let X := cond_Zopp sx (Zpos (fst (shl_align mx ex ez))) in
  let Y := cond_Zopp sy (Zpos (fst (shl_align my ey ez))) in
  Zdigits2 (if sub then X - Y else X + Y) + ez <= k + 1.
Proof.
  intros Hx Hy ez X Y.
  pose proof (shl_align_spec mx ex ez) as Hax.
  pose proof (shl_align_spec my ey ez) as Hay.
  subst X Y.
  destruct (shl_align mx ex ez) as [ax ex'], (shl_align my ey ez) as [ay ey'].
  cbn [fst]. destruct Hax as [Hex' Hax], Hay as [Hey' Hay].
  assert (Hex : ex' = ez) by (subst ez; lia).
  assert (Hey : ey' = ez) by (subst ez; lia).
  rewrite Hex in Hax. rewrite Hey in Hay.
  assert (Hdx : Zdigits2 (Zpos ax) = Zpos (digits2_pos mx) + (ex - ez)).
  { rewrite Hax, Zdigits2_shiftl; [reflexivity|lia|subst ez; lia]. }
  assert (Hdy : Zdigits2 (Zpos ay) = Zpos (digits2_pos my) + (ey - ez)).
  { rewrite Hay, Zdigits2_shiftl; [reflexivity|lia|subst ez; lia]. }
  pose proof (Zdigits2_self (Zpos ax) ltac:(lia)) as Hbx.
  pose proof (Zdigits2_self (Zpos ay) ltac:(lia)) as Hby.
  pose proof (Zdigits2_pos (Zpos ax) ltac:(lia)) as Hpx.
  assert (Hkz : 1 <= k - ez) by lia.
  assert (Hpx' : Zpos ax < 2 ^ (k - ez)).
  { eapply Z.lt_le_trans; [exact Hbx|]. apply Z.pow_le_mono_r; lia. }
  assert (Hpy' : Zpos ay < 2 ^ (k - ez)).
  { eapply Z.lt_le_trans; [exact Hby|]. apply Z.pow_le_mono_r; lia. }
  assert (Hpow : 2 ^ (k + 1 - ez) = 2 * 2 ^ (k - ez)).
  { replace (k + 1 - ez) with (Z.succ (k - ez)) by lia. apply Z.pow_succ_r. lia. }
  set (z := if sub then _ else _).
  assert (Hz : Z.abs z < 2 ^ (k + 1 - ez)).
  { subst z. rewrite Hpow. destruct sub, sx, sy; cbn [cond_Zopp]; lia. }
  rewrite <- Zdigits2_abs.
  apply (Zdigits2_le (Z.abs z) (k + 1 - ez)) in Hz; lia.
Qed.

Lemma add_mag (k : Z) (x y : number) :
  mag_le k x = true -> mag_le k y = true -> -1075 <= k <= 1022 ->
  mag_le (k + 2) (add x y) = true
  /\ (exp_ok x = true -> exp_ok y = true -> exp_ok (add x y) = true).
Proof.
  intros Hx Hy Hk.
  destruct x as [sx|sx| |sx mx ex], y as [sy|sy| |sy my ey]; try discriminate.
  - now destruct sx, sy.
  - split; [|auto]. cbn [add SFadd]. eapply mag_le_mono; [|exact Hy]. lia.
  - split; [|auto]. cbn [add SFadd]. eapply mag_le_mono; [|exact Hx]. lia.
  - cbn [mag_le] in Hx, Hy. apply Z.leb_le in Hx, Hy.
    pose proof (aligned_digits sx sy mx my ex ey k false Hx Hy) as Hd.
    cbv zeta in Hd.
    unfold add. cbn [SFadd].
    destruct (binary_normalize_mag _ _ (k + 1) Hd ltac:(lia)) as [H1 H2].
    replace (k + 2) with (k + 1 + 1) by lia. split; [exact H1|auto].
Qed.

Lemma sub_mag (k : Z) (x y : number) :
  mag_le k x = true -> mag_le k y = true -> -1075 <= k <= 1022 ->
  mag_le (k + 2) (sub x y) = true.
Proof.
  intros Hx Hy Hk.
  destruct x as [sx|sx| |sx mx ex], y as [sy|sy| |sy my ey]; try discriminate.
  - now destruct sx, sy.
  - cbn [sub SFsub]. cbn [mag_le] in *. apply Z.leb_le. apply Z.leb_le in Hy. lia.
  - cbn [sub SFsub]. eapply mag_le_mono; [|exact Hx]. lia.
  - cbn [mag_le] in Hx, Hy. apply Z.leb_le in Hx, Hy.
    pose proof (aligned_digits sx sy mx my ex ey k true Hx Hy) as Hd.
    cbv zeta in Hd.
    unfold sub. cbn [SFsub].
    destruct (binary_normalize_mag _ _ (k + 1) Hd ltac:(lia)) as [H1 H2].
    replace (k + 2) with (k + 1 + 1) by lia. exact H1.
Qed.

Lemma mul_mag (k k' : Z) (x y : number) :
  mag_le k x = true -> mag_le k' y = true -> -1074 <= k + k' <= 973 ->
  mag_le (k + k' + 1) (mul x y) = true /\ exp_ok (mul x y) = true.
Proof.
  intros Hx Hy Hk.
  destruct x as [sx|sx| |sx mx ex], y as [sy|sy| |sy my ey]; try discriminate;
    try (split; reflexivity).
  cbn [mag_le] in Hx, Hy. apply Z.leb_le in Hx, Hy.
  unfold mul. cbn [SFmul].
  pose proof (binary_round_aux_spec (xorb sx sy) (Zpos (mx * my)) (ex + ey) loc_Exact
                ltac:(lia)) as Hr.
  cbv zeta in Hr.
  pose proof (Zdigits2_mul (Zpos mx) (Zpos my) ltac:(lia) ltac:(lia)) as Hm.
  rewrite <- Pos2Z.inj_mul in Hm. cbn [Zdigits2] in Hm, Hr.
  pose proof (Pos2Z.is_pos (digits2_pos mx)). pose proof (Pos2Z.is_pos (digits2_pos my)).
  destruct (binary_round_aux _ _ _ _ _ _); cbn [mag_le exp_ok]; try tauto.
  - destruct Hr as [_ Hr]. lia.
  - destruct Hr as (_ & He & Hm' & _). split; apply Z.leb_le; lia.
Qed.

Lemma half_bounds (x : Z) : 2 * (x / 2) <= x <= 2 * (x / 2) + 1.
Proof.
  pose proof (Z.div_mod x 2 ltac:(lia)).
  pose proof (Z.mod_pos_bound x 2 ltac:(lia)). lia.
Qed.

Lemma Zdigits2_sqrt (a : Z) :
  0 < a -> Zdigits2 (Z.sqrt a) = (Zdigits2 a + 1) / 2.
Proof.
  intros Ha.
  pose proof (Zdigits2_pos a Ha) as Hd.
  pose proof (Zdigits2_self a ltac:(lia)) as Hhi.
  pose proof (proj1 (Zdigits2_ge a (Zdigits2 a) ltac:(lia) ltac:(lia)) (Z.le_refl _)) as Hlo.
  set (c := (Zdigits2 a + 1) / 2).
  assert (Hc : 1 <= c /\ Zdigits2 a <= 2 * c /\ 2 * c <= Zdigits2 a + 1)
    by (pose proof (half_bounds (Zdigits2 a + 1)); subst c; lia).
  pose proof (Z.sqrt_nonneg a) as Hq.
  assert (Hp1 : 0 <= 2 ^ c) by (apply Z.pow_nonneg; lia).
  assert (Hp2 : 0 <= 2 ^ (c - 1)) by (apply Z.pow_nonneg; lia).
  assert (H1 : a < 2 ^ c * 2 ^ c).
  { rewrite <- Z.pow_add_r by lia.
    eapply Z.lt_le_trans; [exact Hhi|]. apply Z.pow_le_mono_r; lia. }
  assert (H2 : 2 ^ (c - 1) * 2 ^ (c - 1) <= a).
  { rewrite <- Z.pow_add_r by lia.
    eapply Z.le_trans; [|exact Hlo]. apply Z.pow_le_mono_r; lia. }
  apply (proj1 (Z.sqrt_lt_square a (2 ^ c) ltac:(lia) Hp1)) in H1.
  apply (proj1 (Z.sqrt_le_square a (2 ^ (c - 1)) ltac:(lia) Hp2)) in H2.
  apply Z.le_antisymm.
  - apply Zdigits2_le; lia.
  - apply Zdigits2_ge; lia.
Qed.

Lemma sqrt_core_spec (m : positive) (e : Z) :
  let D := Zpos (digits2_pos m) + e in
  match SFsqrt_core_binary prec emax (Zpos m) e with
  | (q, e', _) =>
      0 < q /\ Zdigits2 q + e' = (D + 1) / 2
      /\ e' <= Z.max ((D + 1) / 2 - 53) (-1074)
  end.
Proof.
  intros D. unfold SFsqrt_core_binary.
  rewrite !Z.div2_div, fexp_eq. cbn [Zdigits2]. fold D.
  set (e' := Z.min (Z.max ((D + 1) / 2 - 53) (-1074)) (e / 2)).
  assert (Hs : 0 <= e - 2 * e') by (pose proof (half_bounds e); subst e'; lia).
  set (m' := match e - 2 * e' with
             | 0 => Zpos m
             | Zpos _ => Z.shiftl (Zpos m) (e - 2 * e')
             | Zneg _ => 0
             end).
  assert (Hm' : m' = Zpos m * 2 ^ (e - 2 * e')).
  { subst m'. destruct (e - 2 * e') as [|p|p] eqn:E; try lia.
    rewrite Z.shiftl_mul_pow2 by lia. reflexivity. }
  assert (Hpos : 0 < m').
  { rewrite Hm'. apply Z.mul_pos_pos; [lia|]. apply Z.pow_pos_nonneg; lia. }
  pose proof (Z.sqrtrem_sqrt m') as Hq.
  destruct (Z.sqrtrem m') as [q r]. cbn [fst] in Hq. subst q.
  assert (Hdm' : Zdigits2 m' = Zpos (digits2_pos m) + (e - 2 * e')).
  { rewrite Hm', Zdigits2_shiftl by lia. reflexivity. }
  pose proof (Zdigits2_sqrt m' Hpos) as Hdq.
  split; [|split].
  - assert (1 <= Z.sqrt m'); [|lia].
    apply Z.sqrt_le_square; lia.
  - rewrite Hdq, Hdm'. subst D.
    replace (Zpos (digits2_pos m) + (e - 2 * e') + 1)
      with (Zpos (digits2_pos m) + e + 1 + (- e') * 2) by lia.
    rewrite Z.div_add by lia. lia.
  - subst e'. lia.
Qed.

(** The square root of a finite non-negative value is finite; when the
    argument is not zero the root is at least 2^-537. *)
Lemma sqrt_mag (k : Z) (x : number) :
  sign_bit x = false -> exp_ok x = true -> mag_le k x = true -> k <= 2000 ->
  mag_le ((k + 1) / 2 + 1) (sqrt x) = true
  /\ (is_zero (sqrt x) = false -> mag_ge (-536) (sqrt x) = true).
Proof.
  intros Hs He Hk Hb.
  destruct x as [sx|sx| |sx m e]; try discriminate.
  - split; [reflexivity|]. discriminate.
  - cbn [sign_bit] in Hs. subst sx. cbn [exp_ok mag_le] in He, Hk.
    apply Z.leb_le in He, Hk.
    unfold sqrt. cbn [SFsqrt].
    pose proof (sqrt_core_spec m e) as Hc. cbv zeta in Hc.
    destruct (SFsqrt_core_binary prec emax (Zpos m) e) as [[q e'] l].
    destruct Hc as (Hq & Hdq & He').
    pose proof (binary_round_aux_spec false q e' l ltac:(lia)) as Hr.
    cbv zeta in Hr. rewrite Hdq in Hr.
    pose proof (half_bounds (Zpos (digits2_pos m) + e + 1)) as Hh1.
    pose proof (half_bounds (k + 1)) as Hh2.
    destruct (binary_round_aux prec emax false q e' l) as [s'|s'| |s' m3 e3];
      cbn [mag_le mag_ge is_zero]; try tauto.
    + destruct Hr as [_ Hr]. lia.
    + destruct Hr as [_ Hr]. lia.
    + destruct Hr as (_ & He3 & Hm3 & Hge). split.
      * apply Z.leb_le. lia.
      * intros _. apply Z.leb_le. specialize (Hge Hq ltac:(lia)). lia.
Qed.

(** Doubling keeps a lower bound. *)
Lemma mul_two_mag (j k : Z) (c : number) :
  mag_ge j c = true -> mag_le k c = true -> -1074 <= j -> k <= 1020 ->
  mag_ge (j + 1) (mul (of_Z 2) c) = true.
Proof.
  intros Hj Hk Hjb Hkb.
  destruct c as [s|s| |s m e]; try discriminate.
  cbn [mag_ge mag_le] in Hj, Hk. apply Z.leb_le in Hj, Hk.
  unfold mul. change (of_Z 2) with (S754_finite false 4503599627370496 (-51)).
  cbn [SFmul].
  pose proof (binary_round_aux_spec (xorb false s) (Zpos (4503599627370496 * m))
                (-51 + e) loc_Exact ltac:(lia)) as Hr.
  cbv zeta in Hr.
  assert (Hd : Zdigits2 (Zpos (4503599627370496 * m)) = Zpos (digits2_pos m) + 52).
  { rewrite Pos2Z.inj_mul, Z.mul_comm.
    change (Zpos 4503599627370496) with (2 ^ 52).
    rewrite Zdigits2_shiftl by lia. reflexivity. }
  rewrite Hd in Hr.
  destruct (binary_round_aux _ _ _ _ _ _) as [s'|s'| |s' m3 e3];
    cbn [mag_ge]; try tauto.
  - destruct Hr as [_ Hr]. lia.
  - destruct Hr as [_ Hr]. lia.
  - destruct Hr as (_ & He3 & Hm3 & Hge). apply Z.leb_le.
    specialize (Hge ltac:(lia) ltac:(lia)). lia.
Qed.

Lemma div_core_spec (m1 m2 : positive) (e1 e2 : Z) :
  let Dd := Zpos (digits2_pos m1) + e1 - (Zpos (digits2_pos m2) + e2) in
  match SFdiv_core_binary prec emax (Zpos m1) e1 (Zpos m2) e2 with
  | (q, e', _) =>
      0 <= q /\ e' <= Z.max (Dd - 53) (-1074)
      /\ Zdigits2 q + e' <= Z.max e' (Dd + 1)
  end.
Proof.
  intros Dd. unfold SFdiv_core_binary. rewrite fexp_eq. cbn [Zdigits2]. fold Dd.
  set (e' := Z.min (Z.max (Dd - 53) (-1074)) (e1 - e2)).
  assert (Hs : 0 <= e1 - e2 - e') by (subst e'; lia).
  set (m' := match e1 - e2 - e' with
             | 0 => Zpos m1
             | Zpos _ => Z.shiftl (Zpos m1) (e1 - e2 - e')
             | Zneg _ => 0
             end).
  assert (Hm' : m' = Zpos m1 * 2 ^ (e1 - e2 - e')).
  { subst m'. destruct (e1 - e2 - e') as [|p|p] eqn:E; try lia.
    rewrite Z.shiftl_mul_pow2 by lia. reflexivity. }
  assert (Hpos : 0 < m').
  { rewrite Hm'. apply Z.mul_pos_pos; [lia|]. apply Z.pow_pos_nonneg; lia. }
  pose proof (Z_div_mod m' (Zpos m2) ltac:(lia)) as Hdm.
  destruct (Z.div_eucl m' (Zpos m2)) as [q r]. destruct Hdm as [Hdm Hr].
  assert (Hq : 0 <= q) by nia.
  split; [exact Hq|]. split; [subst e'; lia|].
  assert (Hdm' : Zdigits2 m' = Zpos (digits2_pos m1) + (e1 - e2 - e')).
  { rewrite Hm', Zdigits2_shiftl by lia. reflexivity. }
  pose proof (Zdigits2_self m' ltac:(lia)) as Hhi. rewrite Hdm' in Hhi.
  pose proof (digits2_pos_bounds m2) as [Hlo2 _].
  set (t := Zpos (digits2_pos m1) + (e1 - e2 - e') - Zpos (digits2_pos m2) + 1).
  assert (Hdq : Zdigits2 q <= Z.max 0 t).
  { destruct (Z.le_gt_cases 0 t) as [Ht|Ht].
    - rewrite Z.max_r by lia. apply Zdigits2_le; try lia.
      destruct (Z.lt_ge_cases q (2 ^ t)) as [|Hge]; [assumption|exfalso].
      assert (Hp : 2 ^ t * 2 ^ (Zpos (digits2_pos m2) - 1)
                   = 2 ^ (Zpos (digits2_pos m1) + (e1 - e2 - e'))).
      { rewrite <- Z.pow_add_r by lia. f_equal. subst t. lia. }
      assert (0 < 2 ^ (Zpos (digits2_pos m2) - 1)) by (apply Z.pow_pos_nonneg; lia).
      nia.
    - rewrite Z.max_l by lia.
      assert (Hle : 2 ^ (Zpos (digits2_pos m1) + (e1 - e2 - e'))
                    <= 2 ^ (Zpos (digits2_pos m2) - 1)).
      { apply Z.pow_le_mono_r; subst t; lia. }
      assert (q = 0) by nia. subst q. cbn. lia. }
  subst t Dd. lia.
Qed.

(** A bounded numerator over a denominator that is not too small gives a
    finite quotient. *)
Lemma div_finite (k j : Z) (x y : number) :
  mag_le k x = true -> mag_ge j y = true -> k - j <= 1022 ->
  is_finite (div x y) = true.
Proof.
  intros Hx Hy Hkj.
  destruct x as [sx|sx| |sx mx ex], y as [sy|sy| |sy my ey]; try discriminate.
  - reflexivity.
  - cbn [mag_le mag_ge] in Hx, Hy. apply Z.leb_le in Hx, Hy.
    unfold div. cbn [SFdiv].
    pose proof (div_core_spec mx my ex ey) as Hc. cbv zeta in Hc.
    destruct (SFdiv_core_binary prec emax (Zpos mx) ex (Zpos my) ey) as [[q e'] l].
    destruct Hc as (Hq & He' & Hd).
    pose proof (binary_round_aux_spec (xorb sx sy) q e' l Hq) as Hr. cbv zeta in Hr.
    destruct (binary_round_aux prec emax (xorb sx sy) q e' l); cbn [is_finite];
      try reflexivity; try tauto.
    destruct Hr as [_ Hr]. lia.
Qed.

(** ** The EAR of an eye *)

Lemma euclid_eq (p q : Point) : euclid p q = distance_pt p q.
Proof. reflexivity. Qed.

Lemma calculateEAR_formula (p0 p1 p2 p3 p4 p5 : Point) (rest : EyeLandmarks) :
  calculateEAR (Some p0 :: Some p1 :: Some p2 :: Some p3 :: Some p4 :: Some p5 :: rest)
  = Ok (computeEAR_spec p0 p1 p2 p3 p4 p5).
Proof. reflexivity. Qed.

(** The EAR is never negative: its sign bit is clear, whatever the points. *)
Lemma computeEAR_sign (p0 p1 p2 p3 p4 p5 : Point) :
  sign_bit (computeEAR_spec p0 p1 p2 p3 p4 p5) = false.
Proof.
  unfold computeEAR_spec. rewrite !euclid_eq.
  apply sign_div.
  - apply sign_add; apply distance_pt_sign.
  - apply sign_mul_two, distance_pt_sign.
Qed.

Lemma euclid_mag (K : Z) (p q : Point) :
  0 <= K <= 480 ->
  point_within K p = true -> point_within K q = true ->
  mag_le (K + 5) (euclid p q) = true
  /\ (is_zero (euclid p q) = false -> mag_ge (-536) (euclid p q) = true).
Proof.
  intros HK Hp Hq. unfold point_within in *.
  apply andb_prop in Hp as [Hpx Hpy]. apply andb_prop in Hq as [Hqx Hqy].
  unfold euclid.
  pose proof (sub_mag K _ _ Hpx Hqx ltac:(lia)) as Hdx.
  pose proof (sub_mag K _ _ Hpy Hqy ltac:(lia)) as Hdy.
  set (dx := sub (pt_x p) (pt_x q)) in *. set (dy := sub (pt_y p) (pt_y q)) in *.
  destruct (mul_mag (K + 2) (K + 2) dx dx Hdx Hdx ltac:(lia)) as [Hx2 Hex].
  destruct (mul_mag (K + 2) (K + 2) dy dy Hdy Hdy ltac:(lia)) as [Hy2 Hey].
  destruct (add_mag _ _ _ Hx2 Hy2 ltac:(lia)) as [Hs Hes].
  specialize (Hes Hex Hey).
  assert (Hsign : sign_bit (add (mul dx dx) (mul dy dy)) = false)
    by (apply sign_add; apply sign_pow2).
  destruct (sqrt_mag _ _ Hsign Hes Hs ltac:(lia)) as [Hr Hnz].
  split; [|exact Hnz].
  eapply mag_le_mono; [|exact Hr].
  pose proof (half_bounds (K + 2 + (K + 2) + 1 + 2 + 1)). lia.
Qed.

(** C9: [calculateEAR] computes (dist(p1,p5) + dist(p2,p4)) / (2 * dist(p0,p3))
    with dist the Euclidean distance as [distance] computes it in binary64,
    for all six points, and its result is never negative.  It is a finite,
    non-negative number whenever the coordinates are finite and below 2^K in
    absolute value, K up to 480 (normalized coordinates have K = 1), and the
    computed horizontal distance dist(p0,p3) is not zero. *)
Theorem C9_ear_formula_nonneg_finite
  (p0 p1 p2 p3 p4 p5 : Point) (rest : EyeLandmarks) :
  let ear := computeEAR_spec p0 p1 p2 p3 p4 p5 in
  calculateEAR (Some p0 :: Some p1 :: Some p2 :: Some p3 :: Some p4 :: Some p5 :: rest)
  = Ok ear
  /\ sign_bit ear = false
  /\ (forall K : Z,
        0 <= K <= 480 ->
        forallb (point_within K) [p0; p1; p2; p3; p4; p5] = true ->
        is_zero (euclid p0 p3) = false ->
        is_finite ear = true /\ is_nan ear = false).
Proof.
  intros ear.
  split; [apply calculateEAR_formula|].
  split; [apply computeEAR_sign|].
  intros K HK Hall Hnz. cbn [forallb] in Hall.
  repeat (apply andb_prop in Hall as [?H Hall]).
  destruct (euclid_mag K p1 p5 HK) as [HA _]; try assumption.
  destruct (euclid_mag K p2 p4 HK) as [HB _]; try assumption.
  destruct (euclid_mag K p0 p3 HK) as [HC HCnz]; try assumption.
  specialize (HCnz Hnz).
  destruct (add_mag _ _ _ HA HB ltac:(lia)) as [HAB _].
  pose proof (mul_two_mag _ _ _ HCnz HC ltac:(lia) ltac:(lia)) as H2C.
  assert (Hfin : is_finite ear = true).
  { subst ear. unfold computeEAR_spec.
    eapply div_finite; [exact HAB|exact H2C|lia]. }
  split; [exact Hfin|]. destruct ear; try discriminate; reflexivity.
Qed.

(** A valid binary64 value between 0 and 1 is within the bound [K = 1]. *)
Lemma unit_interval_mag (v : number) :
  in_unit_interval v = true -> mag_le 1 v = true.
Proof.
  unfold in_unit_interval. intros H.
  apply andb_prop in H as [H Hle1]. apply andb_prop in H as [Hv Hle0].
  destruct v as [s|s| |s m e]; try reflexivity.
  - destruct s; discriminate.
  - discriminate.
  - destruct s; [discriminate|].
    unfold valid, valid_binary, bounded, canonical_mantissa in Hv.
    apply andb_prop in Hv as [Hc _]. apply Z.eqb_eq in Hc. rewrite fexp_eq in Hc.
    unfold leb, SFleb in Hle1.
    change (of_Z 1) with (S754_finite false 4503599627370496 (-52)) in Hle1.
    cbn [SFcompare] in Hle1.
    cbn [mag_le]. apply Z.leb_le.
    destruct (Z.compare_spec e (-52)) as [He|He|He]; try discriminate; [|lia].
    subst e.
    rewrite (Pos.compare_cont_spec m 4503599627370496 Eq) in Hle1.
    destruct (Pos.compare_spec m 4503599627370496) as [Hm|Hm|Hm]; try discriminate.
    + subst m. vm_compute. discriminate.
    + assert (Hd : Zdigits2 (Zpos m) <= 53).
      { assert (Hlt : Zpos m < 9007199254740992).
        { apply Z.lt_trans with (Zpos 4503599627370496);
            [apply Pos2Z.pos_lt_pos; exact Hm|reflexivity]. }
        apply (proj2 (Zdigits2_le (Zpos m) 53 (Pos2Z.is_nonneg m) ltac:(discriminate))).
        exact Hlt. }
      cbn [Zdigits2] in Hd. clear - Hd. lia.
Qed.

Lemma C9_ear_formula_nonneg_finite_witness :
  let ear := computeEAR_spec (eye_points (dyadic 1 (-3)) 33)
               (eye_points (dyadic 1 (-3)) 160) (eye_points (dyadic 1 (-3)) 158)
               (eye_points (dyadic 1 (-3)) 133) (eye_points (dyadic 1 (-3)) 153)
               (eye_points (dyadic 1 (-3)) 144) in
  calculateEAR (getEyeLandmarks (face_of (eye_points (dyadic 1 (-3))) 468)
                  (RIGHT_EYE CONFIG)) = Ok ear
  /\ sign_bit ear = false
  /\ is_finite ear = true
  /\ ear = dyadic 1 (-1).
Proof.
  destruct (C9_ear_formula_nonneg_finite
              (eye_points (dyadic 1 (-3)) 33)
              (eye_points (dyadic 1 (-3)) 160) (eye_points (dyadic 1 (-3)) 158)
              (eye_points (dyadic 1 (-3)) 133) (eye_points (dyadic 1 (-3)) 153)
              (eye_points (dyadic 1 (-3)) 144) [])
    as (Hf & Hs & Hfin).
  split; [exact Hf|]. split; [exact Hs|].
  split; [|vm_compute; reflexivity].
  apply (Hfin 1); [lia | vm_compute; reflexivity | vm_compute; reflexivity].
Defined.

(** C9 as stated fails on finiteness.  All six points lie in the unit square;
    p0 = (2^-600, 1/2) and p3 = (0, 1/2) are 2^-600 apart, so their Euclidean
    distance is not zero.  The square of 2^-600 underflows to 0, [distance]
    returns +0 for them, and [calculateEAR] returns +Infinity. *)
Lemma C9_counterexample :
  let p0 := pt (dyadic 1 (-600)) (dyadic 1 (-1)) in
  let p3 := pt zero (dyadic 1 (-1)) in
  let up := pt (dyadic 1 (-1)) (dyadic 1 (-2)) in
  let low := pt (dyadic 1 (-1)) (dyadic 3 (-2)) in
  forallb (fun p => in_unit_interval (pt_x p) && in_unit_interval (pt_y p))
    [p0; up; up; p3; low; low] = true
  /\ sub (pt_x p0) (pt_x p3) = dyadic 1 (-600)
  /\ sub (pt_y p0) (pt_y p3) = zero
  /\ is_zero (dyadic 1 (-600)) = false
  /\ distance (Some p0) (Some p3) = Ok zero
  /\ exists ear,
       calculateEAR [Some p0; Some up; Some up; Some p3; Some low; Some low] = Ok ear
       /\ ear = S754_infinity false
       /\ is_finite ear = false.
Proof.
  cbv zeta. repeat (split; [vm_compute; reflexivity|]).
  eexists. split; [vm_compute; reflexivity|]. split; reflexivity.
Qed.

(** Why the bound on the coordinates is there: with coordinates of 2^600 the
    squares overflow, and the EAR is +Infinity although the computed
    horizontal distance is 1. *)
Lemma ear_overflow_example :
  let far := pt (dyadic 1 600) zero in
  let o := pt zero zero in
  let i := pt (of_Z 1) zero in
  euclid o i = of_Z 1
  /\ computeEAR_spec o far o i o o = S754_infinity false.
Proof. split; vm_compute; reflexivity. Qed.

(** [js_incr] agrees with the binary64 sum [c + 1], also where it sticks. *)
Lemma js_incr_binary64 :
  Forall (fun c => of_Z (js_incr c) = add (of_Z c) (of_Z 1))
    [0; 1; 19; 20; 2 ^ 53 - 1; 2 ^ 53].
Proof. repeat constructor. Qed.

(** The literal 0.22 denotes the double nearest to 22/100: the error is at
    most half a unit in the last place, 2^-56. *)
Lemma lit_0_22_nearest :
  valid lit_0_22 = true
  /\ Z.abs (7926335344172073 * 100 - 22 * 2 ^ 55) * 2 <= 100.
Proof. split; [reflexivity|]. vm_compute. discriminate. Qed.

(** With the indices of [CONFIG], a face of at least 388 landmarks has
    both eyes. *)
Lemma eyes_present_CONFIG (landmarks : list Point) :
  (388 <= List.length landmarks)%nat -> eyes_present CONFIG landmarks = true.
Proof.
  intros Hlen.
  assert (H : forall i, (i < 388)%nat -> exists p, nth_error landmarks i = Some p).
  { intros i Hi. destruct (nth_error landmarks i) eqn:E; [eauto|].
    apply nth_error_None in E. lia. }
  unfold eyes_present, eye_present, at_index, getEyeLandmarks.
  assert (Hf : forall i, (i < 388)%nat ->
                 match nth_error landmarks i with Some _ => true | None => false end = true).
  { intros i Hi. destruct (H i Hi) as [p ->]. reflexivity. }
  set (f := fun idx : nat => nth_error landmarks idx) in *.
  cbn [CONFIG RIGHT_EYE LEFT_EYE map nth_error forallb].
  subst f. cbv beta.
  rewrite !Hf by lia. reflexivity.
Qed.

(** * Further properties of the program *)

(** ** Events of a step *)

Lemma count_event_app (p : Event -> bool) (l1 l2 : list Event) :
  count_event p (l1 ++ l2) = (count_event p l1 + count_event p l2)%nat.
Proof. unfold count_event. now rewrite filter_app, length_app. Qed.

Lemma onEAR_shape (cfg : Config) (now : Z) (ear : number) (s : State) :
  step_shape s (fst (onEAR cfg now ear s)) (snd (onEAR cfg now ear s)).
Proof.
  destruct (onEAR_spec cfg now ear s) as (_ & Ha & _ & He).
  rewrite He. clear He.
  destruct (CONSEC_FRAMES_THRESHOLD cfg <=? _); destruct (alarmOn s) eqn:Hon;
    try (constructor; congruence).
  unfold sendSmsAlert.
  destruct (now - lastSmsTime s <? SMS_COOLDOWN_MS cfg); cbn [snd];
    constructor; congruence.
Qed.

Lemma stopDetection_spec (s : State) :
  closedEyeCounter (fst (stopDetection s)) = 0
  /\ alarmOn (fst (stopDetection s)) = false
  /\ lastSmsTime (fst (stopDetection s)) = lastSmsTime s
  /\ snd (stopDetection s) = (if alarmOn s then [alarm_stopped] else []).
Proof.
  unfold_acts. cbn. repeat (break_if; cbn); auto.
Qed.

Lemma stopDetection_shape (s : State) :
  step_shape s (fst (stopDetection s)) (snd (stopDetection s)).
Proof.
  destruct (stopDetection_spec s) as (_ & Ha & _ & He). rewrite He.
  destruct (alarmOn s) eqn:Hon; constructor; congruence.
Qed.

Lemma startDetection_quiet (cameraOk : bool) (s : State) :
  snd (startDetection cameraOk s) = []
  /\ alarmOn (fst (startDetection cameraOk s)) = alarmOn s
  /\ closedEyeCounter (fst (startDetection cameraOk s)) = closedEyeCounter s.
Proof.
  unfold_acts. destruct cameraOk; cbn; destruct (audioContext s); cbn; auto.
Qed.

Lemma smsSettled_quiet (i : nat) (o : FetchOutcome) (s : State) :
  snd (smsSettled i o s) = []
  /\ alarmOn (fst (smsSettled i o s)) = alarmOn s
  /\ closedEyeCounter (fst (smsSettled i o s)) = closedEyeCounter s.
Proof.
  unfold smsSettled. destruct (nth_error (smsInFlight s) i); [destruct o|]; cbn; auto.
Qed.

Lemma alarmTick_quiet (created : bool) (s : State) :
  snd (alarmTick created s) = []
  /\ alarmOn (fst (alarmTick created s)) = alarmOn s
  /\ closedEyeCounter (fst (alarmTick created s)) = closedEyeCounter s.
Proof.
  unfold alarmTick. unfold_acts. cbn.
  destruct created; repeat (break_if; cbn); auto.
Qed.

Lemma saveSettings_quiet (value : jsstring) (s : State) :
  snd (saveSettings value s) = []
  /\ alarmOn (fst (saveSettings value s)) = alarmOn s
  /\ closedEyeCounter (fst (saveSettings value s)) = closedEyeCounter s.
Proof.
  unfold saveSettings. break_if; cbn; auto.
Qed.

Lemma step_has_shape (cfg : Config) (i : Input) (s s' : State) (ev : list Event) :
  step cfg i s = Ok (s', ev) -> step_shape s s' ev.
Proof.
  intros Hstep. destruct i as [ok| |now r|k o|created|value]; unfold step in Hstep.
  - injection Hstep as Hstep.
    destruct (startDetection_quiet ok s) as (He & Ha & _).
    rewrite Hstep in He, Ha. cbn in He, Ha. subst ev. now constructor.
  - injection Hstep as Hstep.
    pose proof (stopDetection_shape s) as H. now rewrite Hstep in H.
  - unfold onResults in Hstep.
    assert (Hnf : forall p, Ok (onNoFace s) = Ok p -> step_shape s (fst p) (snd p)).
    { intros p Hp. injection Hp as <-.
      destruct (onNoFace_spec s) as (_ & Ha & _ & _ & _ & _ & He).
      rewrite He. now constructor. }
    destruct (multiFaceLandmarks r) as [[|l rest]|].
    + exact (Hnf _ Hstep).
    + destruct (avgEAR cfg l) as [ear|]; cbn [bind] in Hstep; [|discriminate].
      injection Hstep as Hstep.
      pose proof (onEAR_shape cfg now ear s) as H. now rewrite Hstep in H.
    + exact (Hnf _ Hstep).
  - injection Hstep as Hstep.
    destruct (smsSettled_quiet k o s) as (He & Ha & _).
    rewrite Hstep in He, Ha. cbn in He, Ha. subst ev. now constructor.
  - injection Hstep as Hstep.
    destruct (alarmTick_quiet created s) as (He & Ha & _).
    rewrite Hstep in He, Ha. cbn in He, Ha. subst ev. now constructor.
  - injection Hstep as Hstep.
    destruct (saveSettings_quiet value s) as (He & Ha & _).
    rewrite Hstep in He, Ha. cbn in He, Ha. subst ev. now constructor.
Qed.

Lemma run_alarm_events_balance_aux
  (cfg : Config) (inputs : list Input) (s s' : State) (evs : list Event) :
  run cfg inputs s = Ok (s', evs) ->
  (count_event is_alarm_started evs + Nat.b2n (alarmOn s)
   = count_event is_alarm_stopped evs + Nat.b2n (alarmOn s'))%nat.
Proof.
  revert s s' evs. induction inputs as [|i rest IH]; intros s s' evs Hrun; cbn in Hrun.
  - injection Hrun as <- <-. reflexivity.
  - destruct (step cfg i s) as [[s1 l1]|] eqn:Hstep; cbn in Hrun; [|discriminate].
    destruct (run cfg rest s1) as [[s2 l2]|] eqn:Hrest; cbn in Hrun; [|discriminate].
    injection Hrun as <- <-.
    specialize (IH _ _ _ Hrest). rewrite !count_event_app.
    destruct (step_has_shape cfg i s s1 l1 Hstep) as [H|H1 H2|H1 H2|t H1 H2];
      cbn; rewrite ?H, ?H1, ?H2 in *; cbn in *; lia.
Qed.

Lemma run_sms_only_on_alarm_start_aux
  (cfg : Config) (inputs : list Input) (s s' : State) (evs : list Event) :
  run cfg inputs s = Ok (s', evs) ->
  (count_event is_sms_request evs + count_event is_cooldown_skip evs
   = count_event is_alarm_started evs)%nat.
Proof.
  revert s s' evs. induction inputs as [|i rest IH]; intros s s' evs Hrun; cbn in Hrun.
  - injection Hrun as <- <-. reflexivity.
  - destruct (step cfg i s) as [[s1 l1]|] eqn:Hstep; cbn in Hrun; [|discriminate].
    destruct (run cfg rest s1) as [[s2 l2]|] eqn:Hrest; cbn in Hrun; [|discriminate].
    injection Hrun as <- <-.
    specialize (IH _ _ _ Hrest). rewrite !count_event_app.
    destruct (step_has_shape cfg i s s1 l1 Hstep); cbn; lia.
Qed.

(** X: over any run, alarm starts and stops alternate: the starts, plus one
    if the run began in ALARM, equal the stops, plus one if it ends in
    ALARM. *)
Theorem run_alarm_events_balance
  (cfg : Config) (inputs : list Input) (s s' : State) (evs : list Event) :
  run cfg inputs s = Ok (s', evs) ->
  (count_event is_alarm_started evs + Nat.b2n (alarmOn s)
   = count_event is_alarm_stopped evs + Nat.b2n (alarmOn s'))%nat.
Proof. exact (run_alarm_events_balance_aux cfg inputs s s' evs). Qed.

(** X: over any run, every SMS decision belongs to an alarm start: the
    requests issued and the attempts skipped add up to the alarm starts. *)
Theorem run_sms_only_on_alarm_start
  (cfg : Config) (inputs : list Input) (s s' : State) (evs : list Event) :
  run cfg inputs s = Ok (s', evs) ->
  (count_event is_sms_request evs + count_event is_cooldown_skip evs
   = count_event is_alarm_started evs)%nat.
Proof. exact (run_sms_only_on_alarm_start_aux cfg inputs s s' evs). Qed.

(** ** Invariants of the reachable states *)

Ltac sync_tac s :=
  unfold indicators_in_sync; unfold_acts; cbn;
  repeat (break_if; cbn);
  destruct (alertOverlay s) eqn:?, (alarmInterval s) eqn:?, (alarmOn s) eqn:?;
  cbn in *; try congruence; auto.

Lemma sync_onEAR (cfg : Config) (now : Z) (ear : number) (s : State) :
  indicators_in_sync s = true ->
  indicators_in_sync (fst (onEAR cfg now ear s)) = true.
Proof. sync_tac s. Qed.

Lemma sync_onNoFace (s : State) :
  indicators_in_sync s = true -> indicators_in_sync (fst (onNoFace s)) = true.
Proof. sync_tac s. Qed.

Lemma sync_step (cfg : Config) (i : Input) (s s' : State) (ev : list Event) :
  indicators_in_sync s = true -> step cfg i s = Ok (s', ev) ->
  indicators_in_sync s' = true.
Proof.
  intros Hinv Hstep. revert Hinv.
  destruct i as [ok| |now r|k o|created|value]; unfold step in Hstep.
  - injection Hstep as Hstep. apply (f_equal fst) in Hstep. cbn [fst] in Hstep.
    subst s'. destruct ok; sync_tac s.
  - injection Hstep as Hstep. apply (f_equal fst) in Hstep. cbn [fst] in Hstep.
    subst s'. sync_tac s.
  - unfold onResults in Hstep.
    destruct (multiFaceLandmarks r) as [[|l rest]|].
    + injection Hstep as Hstep. apply (f_equal fst) in Hstep.
      cbn [fst] in Hstep. subst s'. apply sync_onNoFace.
    + destruct (avgEAR cfg l) as [ear|]; cbn [bind] in Hstep; [|discriminate].
      injection Hstep as Hstep. apply (f_equal fst) in Hstep.
      cbn [fst] in Hstep. subst s'. apply sync_onEAR.
    + injection Hstep as Hstep. apply (f_equal fst) in Hstep.
      cbn [fst] in Hstep. subst s'. apply sync_onNoFace.
  - injection Hstep as Hstep. apply (f_equal fst) in Hstep. cbn [fst] in Hstep.
    subst s'. unfold indicators_in_sync, smsSettled.
    destruct (nth_error (smsInFlight s) k); [destruct o|]; cbn; auto.
  - injection Hstep as Hstep. apply (f_equal fst) in Hstep. cbn [fst] in Hstep.
    subst s'. unfold alarmTick. destruct created; sync_tac s.
  - injection Hstep as Hstep. apply (f_equal fst) in Hstep. cbn [fst] in Hstep.
    subst s'. unfold indicators_in_sync, saveSettings.
    destruct (negb (truthy (trim value)) || (JsString.length (trim value) <? 10));
      cbn; auto.
Qed.

Lemma sync_initial (stored : option jsstring) :
  indicators_in_sync (initial stored) = true.
Proof.
  unfold initial, loadSavedSettings, updateStatus, chain, modify,
    indicators_in_sync; cbn.
  destruct stored as [r|]; cbn; [destruct (truthy r)|]; reflexivity.
Qed.

(** X: in every reachable state the warning overlay is shown and the beep
    timer is set exactly when the alarm flag is on. *)
Theorem reachable_indicators_in_sync (cfg : Config) (s : State) :
  reachable cfg s ->
  alertOverlay s = alarmOn s /\ alarmInterval s = alarmOn s.
Proof.
  intros Hr.
  assert (H : indicators_in_sync s = true).
  { induction Hr as [stored|i s s' ev _ IH Hstep].
    - apply sync_initial.
    - exact (sync_step cfg i s s' ev IH Hstep). }
  unfold indicators_in_sync in H. apply andb_prop in H as [H1 H2].
  split; now apply Bool.eqb_prop.
Qed.

(** What a step does to the counter and the alarm flag. *)
Lemma step_counter_alarm (cfg : Config) (i : Input) (s s' : State) (ev : list Event) :
  1 <= CONSEC_FRAMES_THRESHOLD cfg ->
  step cfg i s = Ok (s', ev) ->
  0 <= closedEyeCounter s <= 2 ^ 53 ->
  alarmOn s = (CONSEC_FRAMES_THRESHOLD cfg <=? closedEyeCounter s) ->
  0 <= closedEyeCounter s' <= 2 ^ 53
  /\ alarmOn s' = (CONSEC_FRAMES_THRESHOLD cfg <=? closedEyeCounter s').
Proof.
  intros HN Hstep Hc Ha.
  assert (Hquiet : forall p : State * list Event,
             alarmOn (fst p) = alarmOn s ->
             closedEyeCounter (fst p) = closedEyeCounter s ->
             p = (s', ev) ->
             0 <= closedEyeCounter s' <= 2 ^ 53
             /\ alarmOn s' = (CONSEC_FRAMES_THRESHOLD cfg <=? closedEyeCounter s')).
  { intros p H1 H2 ->. cbn in H1, H2. rewrite H1, H2. auto. }
  destruct i as [ok| |now r|k o|created|value]; unfold step in Hstep.
  - injection Hstep as Hstep. destruct (startDetection_quiet ok s) as (_ & H1 & H2).
    exact (Hquiet _ H1 H2 Hstep).
  - injection Hstep as Hstep. destruct (stopDetection_spec s) as (H1 & H2 & _).
    rewrite Hstep in H1, H2. cbn in H1, H2. rewrite H1, H2. split; [lia|].
    symmetry. apply Z.leb_gt. lia.
  - unfold onResults in Hstep.
    assert (Hnf : Ok (onNoFace s) = Ok (s', ev) ->
                  0 <= closedEyeCounter s' <= 2 ^ 53
                  /\ alarmOn s' = (CONSEC_FRAMES_THRESHOLD cfg <=? closedEyeCounter s')).
    { intros Hp. injection Hp as Hp.
      destruct (onNoFace_spec s) as (H1 & H2 & _). exact (Hquiet _ H2 H1 Hp). }
    destruct (multiFaceLandmarks r) as [[|l rest]|]; try exact (Hnf Hstep).
    destruct (avgEAR cfg l) as [ear|]; cbn [bind] in Hstep; [|discriminate].
    injection Hstep as Hstep.
    destruct (onEAR_spec cfg now ear s) as (H1 & H2 & _).
    rewrite Hstep in H1, H2. cbn [fst] in H1, H2.
    rewrite H2, H1. split; [|reflexivity].
    destruct (ltb ear (EAR_THRESHOLD cfg)); [|lia].
    rewrite (js_incr_bounds _ Hc). lia.
  - injection Hstep as Hstep. destruct (smsSettled_quiet k o s) as (_ & H1 & H2).
    exact (Hquiet _ H1 H2 Hstep).
  - injection Hstep as Hstep. destruct (alarmTick_quiet created s) as (_ & H1 & H2).
    exact (Hquiet _ H1 H2 Hstep).
  - injection Hstep as Hstep. destruct (saveSettings_quiet value s) as (_ & H1 & H2).
    exact (Hquiet _ H1 H2 Hstep).
Qed.

(** X: in every reachable state the alarm flag is on exactly when the counter
    has reached the consecutive-frame threshold, and the counter stays within
    the integers a binary64 number counts exactly. *)
Theorem reachable_alarm_iff_counter (cfg : Config) (s : State) :
  1 <= CONSEC_FRAMES_THRESHOLD cfg ->
  reachable cfg s ->
  (alarmOn s = true <-> CONSEC_FRAMES_THRESHOLD cfg <= closedEyeCounter s)
  /\ 0 <= closedEyeCounter s <= 2 ^ 53.
Proof.
  intros HN Hr.
  assert (H : 0 <= closedEyeCounter s <= 2 ^ 53
              /\ alarmOn s = (CONSEC_FRAMES_THRESHOLD cfg <=? closedEyeCounter s)).
  { induction Hr as [stored|i s s' ev _ IH Hstep].
    - assert (Hi : closedEyeCounter (initial stored) = 0 /\ alarmOn (initial stored) = false).
      { unfold initial, loadSavedSettings, updateStatus, chain, modify; cbn.
        destruct stored as [r|]; cbn; [destruct (truthy r)|]; auto. }
      destruct Hi as [-> ->]. split; [lia|]. symmetry. apply Z.leb_gt. lia.
    - destruct IH as [Hc Ha]. exact (step_counter_alarm cfg i s s' ev HN Hstep Hc Ha). }
  destruct H as [Hc Ha]. split; [|exact Hc]. rewrite Ha. apply Z.leb_le.
Qed.

Lemma reachable_alarm_iff_counter_witness :
  (alarmOn alarmed = true <-> 20 <= closedEyeCounter alarmed)
  /\ 0 <= closedEyeCounter alarmed <= 2 ^ 53.
Proof.
  apply (reachable_alarm_iff_counter CONFIG alarmed); [cbn; lia|].
  assert (H : forall inputs s0 s evs,
             reachable CONFIG s0 ->
             run CONFIG inputs s0 = Ok (s, evs) -> reachable CONFIG s).
  { induction inputs as [|i rest IH]; intros s0 s evs Hs0 Hrun; cbn in Hrun.
    - injection Hrun as <- _. exact Hs0.
    - destruct (step CONFIG i s0) as [[s1 l1]|] eqn:Hstep; cbn in Hrun;
        [|discriminate].
      destruct (run CONFIG rest s1) as [[s2 l2]|] eqn:Hrest; cbn in Hrun;
        [|discriminate].
      injection Hrun as <- _.
      exact (IH s1 s2 l2 (reach_step CONFIG i s0 s1 l1 Hs0 Hstep) Hrest). }
  apply (H (repeat (Frame t0 closed_eyes) 20) (initial None) alarmed
           (events_of (repeat (Frame t0 closed_eyes) 20)) (reach_initial CONFIG None)).
  vm_compute; reflexivity.
Defined.

Lemma run_reachable (cfg : Config) (inputs : list Input) :
  forall s0 s evs,
    reachable cfg s0 -> run cfg inputs s0 = Ok (s, evs) -> reachable cfg s.
Proof.
  induction inputs as [|i rest IH]; intros s0 s evs Hs0 Hrun; cbn in Hrun.
  - injection Hrun as <- _. exact Hs0.
  - destruct (step cfg i s0) as [[s1 l1]|] eqn:Hstep; cbn in Hrun; [|discriminate].
    destruct (run cfg rest s1) as [[s2 l2]|] eqn:Hrest; cbn in Hrun; [|discriminate].
    injection Hrun as <- _.
    exact (IH s1 s2 l2 (reach_step cfg i s0 s1 l1 Hs0 Hstep) Hrest).
Qed.

Lemma triggerAlarm_noop (cfg : Config) (now : Z) (s : State) :
  alarmOn s = true -> triggerAlarm cfg now s = (s, []).
Proof.
  intros H. unfold triggerAlarm, when, ifte, skip. now rewrite H.
Qed.

(** X: while alarmed, a further low frame only advances the counter and
    keeps the warning class: no event, no new SMS request, and the beep
    timer is not restarted. *)
Theorem low_frame_while_alarmed_is_silent
  (cfg : Config) (now : Z) (r : Results) (ear : number) (s : State) :
  frame_ear cfg r = Some ear ->
  ltb ear (EAR_THRESHOLD cfg) = true ->
  alarmOn s = true ->
  CONSEC_FRAMES_THRESHOLD cfg <= closedEyeCounter s ->
  onResults cfg now r s
  = Ok (set_earWarning true
          (set_closedEyeCounter (js_incr (closedEyeCounter s)) s), []).
Proof.
  intros Hear Hlow Hon HN.
  rewrite (onResults_face cfg now r ear s Hear).
  unfold onEAR. rewrite Hlow.
  unfold chain at 1. unfold chain at 1. unfold modify at 1 2. unfold ifte.
  cbn [closedEyeCounter set_earWarning set_closedEyeCounter].
  assert (Hle : (CONSEC_FRAMES_THRESHOLD cfg <=? js_incr (closedEyeCounter s)) = true).
  { apply Z.leb_le. unfold js_incr. destruct (closedEyeCounter s <? 2 ^ 53); lia. }
  rewrite Hle, triggerAlarm_noop by exact Hon. reflexivity.
Qed.

Lemma low_frame_while_alarmed_is_silent_witness :
  onResults CONFIG t0 closed_eyes alarmed
  = Ok (set_earWarning true
          (set_closedEyeCounter (js_incr (closedEyeCounter alarmed)) alarmed), []).
Proof.
  apply (low_frame_while_alarmed_is_silent CONFIG t0 closed_eyes zero alarmed);
    try (vm_compute; reflexivity).
  vm_compute. discriminate.
Defined.

(** One frame of a stream in which every frame is low or has no face. *)
Lemma low_or_no_face_step (cfg : Config) (i : Input) (s : State) :
  low_frame cfg i || no_face_input i = true ->
  0 <= closedEyeCounter s <= 2 ^ 53 ->
  alarmOn s = (CONSEC_FRAMES_THRESHOLD cfg <=? closedEyeCounter s) ->
  exists s' ev,
    step cfg i s = Ok (s', ev)
    /\ closedEyeCounter s'
       = Z.min (closedEyeCounter s + (if low_frame cfg i then 1 else 0)) (2 ^ 53)
    /\ alarmOn s' = (CONSEC_FRAMES_THRESHOLD cfg <=? closedEyeCounter s')
    /\ count_event is_alarm_stopped ev = 0%nat.
Proof.
  intros Hin Hc Ha. destruct (low_frame cfg i) eqn:Hlow.
  - destruct i as [ | |now r| | | ]; cbn in Hlow; try discriminate.
    destruct (frame_ear cfg r) as [ear|] eqn:Hear; try discriminate.
    exists (fst (onEAR cfg now ear s)), (snd (onEAR cfg now ear s)).
    cbn [step]. rewrite (onResults_face cfg now r ear s Hear).
    destruct (onEAR_spec cfg now ear s) as (H1 & H2 & _ & He).
    rewrite Hlow in H1, H2, He. rewrite (js_incr_bounds _ Hc) in H1, H2, He.
    split; [now destruct (onEAR cfg now ear s)|].
    rewrite H2, H1. repeat split.
    rewrite He.
    destruct (Z.leb_spec (CONSEC_FRAMES_THRESHOLD cfg)
                (Z.min (closedEyeCounter s + 1) (2 ^ 53))) as [Hle|Hgt].
    + destruct (alarmOn s); [reflexivity|].
      unfold sendSmsAlert. now break_if.
    + rewrite Ha.
      destruct (Z.leb_spec (CONSEC_FRAMES_THRESHOLD cfg) (closedEyeCounter s));
        [lia|reflexivity].
  - cbn in Hin. destruct i as [ | |now r| | | ]; cbn in Hin; try discriminate.
    exists (fst (onNoFace s)), (snd (onNoFace s)).
    cbn [step]. rewrite (onResults_no_face cfg now r s Hin).
    destruct (onNoFace_spec s) as (H1 & H2 & _ & _ & _ & _ & He).
    split; [now destruct (onNoFace s)|].
    rewrite H1, H2, He. repeat split; try assumption. lia.
Qed.

Lemma no_face_gaps_keep_the_count_aux
  (cfg : Config) (frames : list Input) (s : State) :
  forallb (fun i => low_frame cfg i || no_face_input i) frames = true ->
  0 <= closedEyeCounter s <= 2 ^ 53 ->
  alarmOn s = (CONSEC_FRAMES_THRESHOLD cfg <=? closedEyeCounter s) ->
  exists s' evs,
    run cfg frames s = Ok (s', evs)
    /\ closedEyeCounter s'
       = Z.min (closedEyeCounter s
                + Z.of_nat (List.length (filter (low_frame cfg) frames))) (2 ^ 53)
    /\ alarmOn s' = (CONSEC_FRAMES_THRESHOLD cfg <=? closedEyeCounter s')
    /\ count_event is_alarm_stopped evs = 0%nat.
Proof.
  revert s. induction frames as [|f fs IH]; intros s Hall Hc Ha.
  - exists s, []. cbn. repeat split; try assumption. lia.
  - cbn [forallb] in Hall. apply andb_prop in Hall as [Hf Hfs].
    destruct (low_or_no_face_step cfg f s Hf Hc Ha) as (s1 & ev1 & Hstep & Hc1 & Ha1 & He1).
    assert (Hc1' : 0 <= closedEyeCounter s1 <= 2 ^ 53)
      by (destruct (low_frame cfg f); lia).
    destruct (IH s1 Hfs Hc1' Ha1) as (s' & evs & Hrun & Hc' & Ha' & He').
    exists s', (ev1 ++ evs). cbn [run]. rewrite Hstep. cbn. rewrite Hrun. cbn.
    split; [reflexivity|]. split; [|split; [exact Ha'|]].
    + rewrite Hc', Hc1. cbn [filter].
      destruct (low_frame cfg f); cbn [List.length]; lia.
    + rewrite count_event_app. lia.
Qed.

(** X: frames without a face neither reset nor advance the count: over a
    stream in which every frame is low or has no face, the counter grows by
    the number of low frames and the alarm is on exactly when that count has
    reached the threshold, however the low frames are interleaved. *)
Theorem no_face_gaps_keep_the_count
  (cfg : Config) (frames : list Input) (s : State) :
  forallb (fun i => low_frame cfg i || no_face_input i) frames = true ->
  0 <= closedEyeCounter s <= 2 ^ 53 ->
  alarmOn s = (CONSEC_FRAMES_THRESHOLD cfg <=? closedEyeCounter s) ->
  exists s' evs,
    run cfg frames s = Ok (s', evs)
    /\ closedEyeCounter s'
       = Z.min (closedEyeCounter s
                + Z.of_nat (List.length (filter (low_frame cfg) frames))) (2 ^ 53)
    /\ alarmOn s' = (CONSEC_FRAMES_THRESHOLD cfg <=? closedEyeCounter s')
    /\ count_event is_alarm_stopped evs = 0%nat.
Proof. exact (no_face_gaps_keep_the_count_aux cfg frames s). Qed.

Lemma no_face_gaps_keep_the_count_witness :
  exists s' evs,
    run CONFIG (repeat (Frame t0 closed_eyes) 10 ++ [Frame t0 no_face_frame]
                ++ repeat (Frame t0 closed_eyes) 10) (initial None)
    = Ok (s', evs)
    /\ closedEyeCounter s' = 20
    /\ alarmOn s' = true
    /\ count_event is_alarm_stopped evs = 0%nat.
Proof.
  destruct (no_face_gaps_keep_the_count CONFIG
              (repeat (Frame t0 closed_eyes) 10 ++ [Frame t0 no_face_frame]
               ++ repeat (Frame t0 closed_eyes) 10) (initial None))
    as (s' & evs & Hrun & Hc & Ha & He);
    [vm_compute; reflexivity | vm_compute; split; discriminate
    | vm_compute; reflexivity | ].
  exists s', evs. split; [exact Hrun|].
  assert (Hc20 : closedEyeCounter s' = 20) by (rewrite Hc; vm_compute; reflexivity).
  split; [exact Hc20|]. split; [|exact He].
  rewrite Ha, Hc20. reflexivity.
Defined.

(** X: a closed-eye episode raises the alarm once: over a stream of low
    frames from AWAKE with the counter at 0, [alarm_started] is emitted
    exactly once when the stream is at least as long as the threshold and
    never otherwise, [alarm_stopped] never, and at most one SMS request goes
    out. *)
Theorem one_alarm_per_episode (cfg : Config) (frames : list Input) (s : State) :
  1 <= CONSEC_FRAMES_THRESHOLD cfg <= 2 ^ 53 ->
  alarmOn s = false ->
  closedEyeCounter s = 0 ->
  forallb (low_frame cfg) frames = true ->
  exists s' evs,
    run cfg frames s = Ok (s', evs)
    /\ count_event is_alarm_started evs
       = (if CONSEC_FRAMES_THRESHOLD cfg <=? Z.of_nat (List.length frames)
          then 1%nat else 0%nat)
    /\ count_event is_alarm_stopped evs = 0%nat
    /\ (count_event is_sms_request evs <= 1)%nat.
Proof.
  intros HN Hoff Hzero Hall.
  assert (Hall' : forallb (fun i => low_frame cfg i || no_face_input i) frames = true).
  { apply forallb_forall. intros i Hi.
    rewrite (proj1 (forallb_forall _ _) Hall i Hi). reflexivity. }
  assert (Ha0 : alarmOn s = (CONSEC_FRAMES_THRESHOLD cfg <=? closedEyeCounter s)).
  { rewrite Hoff, Hzero. symmetry. apply Z.leb_gt. lia. }
  destruct (no_face_gaps_keep_the_count_aux cfg frames s Hall' ltac:(lia) Ha0)
    as (s' & evs & Hrun & Hc & Ha & Hstop).
  exists s', evs. split; [exact Hrun|].
  pose proof (run_alarm_events_balance_aux cfg frames s s' evs Hrun) as Hbal.
  pose proof (run_sms_only_on_alarm_start_aux cfg frames s s' evs Hrun) as Hsms.
  assert (Hlen : List.length (filter (low_frame cfg) frames) = List.length frames).
  { clear - Hall. induction frames as [|f fs IH]; [reflexivity|].
    cbn in *. apply andb_prop in Hall as [-> Hfs]. cbn. now rewrite IH. }
  rewrite Hlen, Hzero in Hc.
  assert (Hb : (CONSEC_FRAMES_THRESHOLD cfg <=? Z.min (0 + Z.of_nat (List.length frames)) (2 ^ 53))
               = (CONSEC_FRAMES_THRESHOLD cfg <=? Z.of_nat (List.length frames))).
  { destruct (Z.leb_spec (CONSEC_FRAMES_THRESHOLD cfg)
                (Z.min (0 + Z.of_nat (List.length frames)) (2 ^ 53)));
      destruct (Z.leb_spec (CONSEC_FRAMES_THRESHOLD cfg) (Z.of_nat (List.length frames)));
      lia. }
  rewrite Hoff, Hstop, Ha, Hc, Hb in Hbal.
  split; [|split; [exact Hstop|]].
  - destruct (CONSEC_FRAMES_THRESHOLD cfg <=? Z.of_nat (List.length frames));
      cbn in Hbal; lia.
  - destruct (CONSEC_FRAMES_THRESHOLD cfg <=? Z.of_nat (List.length frames));
      cbn in Hbal; lia.
Qed.

Lemma one_alarm_per_episode_witness :
  exists s' evs,
    run CONFIG (repeat (Frame t0 closed_eyes) 25) (initial None) = Ok (s', evs)
    /\ count_event is_alarm_started evs
       = (if 20 <=? Z.of_nat 25 then 1%nat else 0%nat)
    /\ count_event is_alarm_stopped evs = 0%nat
    /\ (count_event is_sms_request evs <= 1)%nat.
Proof.
  apply (one_alarm_per_episode CONFIG (repeat (Frame t0 closed_eyes) 25) (initial None));
    [cbn; lia | reflexivity | reflexivity | vm_compute; reflexivity].
Defined.

Lemma run_alarm_events_balance_witness :
  (count_event is_alarm_started
     (events_of (repeat (Frame t0 closed_eyes) 20 ++ [Frame t0 open_eyes]))
   + Nat.b2n (alarmOn (initial None))
   = count_event is_alarm_stopped
       (events_of (repeat (Frame t0 closed_eyes) 20 ++ [Frame t0 open_eyes]))
     + Nat.b2n (alarmOn (state_after
                           (repeat (Frame t0 closed_eyes) 20 ++ [Frame t0 open_eyes]))))%nat.
Proof.
  apply (run_alarm_events_balance CONFIG
           (repeat (Frame t0 closed_eyes) 20 ++ [Frame t0 open_eyes]) (initial None)).
  vm_compute; reflexivity.
Defined.

Lemma run_sms_only_on_alarm_start_witness :
  (count_event is_sms_request
     (events_of (repeat (Frame t0 closed_eyes) 20 ++ [Frame t0 open_eyes]))
   + count_event is_cooldown_skip
       (events_of (repeat (Frame t0 closed_eyes) 20 ++ [Frame t0 open_eyes]))
   = count_event is_alarm_started
       (events_of (repeat (Frame t0 closed_eyes) 20 ++ [Frame t0 open_eyes])))%nat.
Proof.
  apply (run_sms_only_on_alarm_start CONFIG
           (repeat (Frame t0 closed_eyes) 20 ++ [Frame t0 open_eyes]) (initial None)
           (state_after (repeat (Frame t0 closed_eyes) 20 ++ [Frame t0 open_eyes]))).
  vm_compute; reflexivity.
Defined.

Lemma reachable_indicators_in_sync_witness :
  alertOverlay alarmed = alarmOn alarmed /\ alarmInterval alarmed = alarmOn alarmed.
Proof.
  apply (reachable_indicators_in_sync CONFIG alarmed).
  apply (run_reachable CONFIG (repeat (Frame t0 closed_eyes) 20) (initial None) alarmed
           (events_of (repeat (Frame t0 closed_eyes) 20)) (reach_initial CONFIG None)).
  vm_compute; reflexivity.
Defined.

Lemma filter_low_all (cfg : Config) (frames : list Input) :
  forallb (low_frame cfg) frames = true ->
  List.length (filter (low_frame cfg) frames) = List.length frames.
Proof.
  induction frames as [|f fs IH]; [reflexivity|].
  cbn. intros H. apply andb_prop in H as [-> Hfs]. cbn. now rewrite IH.
Qed.

Lemma reset_step (cfg : Config) (i : Input) (s : State) :
  1 <= CONSEC_FRAMES_THRESHOLD cfg ->
  resets_count cfg i = true ->
  exists s1 ev1,
    step cfg i s = Ok (s1, ev1)
    /\ closedEyeCounter s1 = 0 /\ alarmOn s1 = false.
Proof.
  intros HN Hres. destruct i as [ | |now r| | | ]; cbn in Hres; try discriminate.
  - exists (fst (stopDetection s)), (snd (stopDetection s)). cbn [step].
    destruct (stopDetection_spec s) as (H1 & H2 & _).
    split; [now destruct (stopDetection s)|]. auto.
  - destruct (frame_ear cfg r) as [ear|] eqn:Hear; [|discriminate].
    apply negb_true_iff in Hres.
    exists (fst (onEAR cfg now ear s)), (snd (onEAR cfg now ear s)). cbn [step].
    rewrite (onResults_face cfg now r ear s Hear).
    destruct (onEAR_spec cfg now ear s) as (H1 & H2 & _).
    rewrite Hres in H1, H2.
    split; [now destruct (onEAR cfg now ear s)|]. split; [exact H1|].
    rewrite H2. apply Z.leb_gt. lia.
Qed.

(** X: the count starts afresh after the stop button or after one
    face-detected frame whose EAR is not below the threshold: whatever the
    state was, the alarm is then on after the low frames that follow exactly
    when there are at least threshold-many of them. *)
Theorem count_restarts_after_reset
  (cfg : Config) (i : Input) (lows : list Input) (s : State) :
  1 <= CONSEC_FRAMES_THRESHOLD cfg <= 2 ^ 53 ->
  resets_count cfg i = true ->
  forallb (low_frame cfg) lows = true ->
  exists s' evs,
    run cfg (i :: lows) s = Ok (s', evs)
    /\ closedEyeCounter s' = Z.min (Z.of_nat (List.length lows)) (2 ^ 53)
    /\ (alarmOn s' = true
        <-> CONSEC_FRAMES_THRESHOLD cfg <= Z.of_nat (List.length lows)).
Proof.
  intros HN Hres Hall.
  destruct (reset_step cfg i s ltac:(lia) Hres) as (s1 & ev1 & Hstep & Hc1 & Ha1).
  assert (Hall' : forallb (fun i => low_frame cfg i || no_face_input i) lows = true).
  { apply forallb_forall. intros j Hj.
    rewrite (proj1 (forallb_forall _ _) Hall j Hj). reflexivity. }
  assert (Ha0 : alarmOn s1 = (CONSEC_FRAMES_THRESHOLD cfg <=? closedEyeCounter s1)).
  { rewrite Ha1, Hc1. symmetry. apply Z.leb_gt. lia. }
  destruct (no_face_gaps_keep_the_count_aux cfg lows s1 Hall' ltac:(lia) Ha0)
    as (s' & evs & Hrun & Hc & Ha & _).
  rewrite (filter_low_all cfg lows Hall), Hc1 in Hc.
  exists s', (ev1 ++ evs). cbn [run]. rewrite Hstep. cbn. rewrite Hrun. cbn.
  split; [reflexivity|]. split; [lia|].
  rewrite Ha, Hc, Z.leb_le. lia.
Qed.

Lemma count_restarts_after_reset_witness :
  exists s' evs,
    run CONFIG (Frame t0 open_eyes :: repeat (Frame t0 closed_eyes) 19) five_low
    = Ok (s', evs)
    /\ closedEyeCounter s' = Z.min (Z.of_nat 19) (2 ^ 53)
    /\ (alarmOn s' = true <-> 20 <= Z.of_nat 19).
Proof.
  apply (count_restarts_after_reset CONFIG (Frame t0 open_eyes)
           (repeat (Frame t0 closed_eyes) 19) five_low);
    [cbn; lia | vm_compute; reflexivity | vm_compute; reflexivity].
Defined.

(** ** Missing landmarks *)

Lemma eye_present_false_throws (landmarks : list Point) (eyeIndices : list nat) :
  eye_present landmarks eyeIndices = false ->
  calculateEAR (getEyeLandmarks landmarks eyeIndices) = Throw TypeError.
Proof.
  unfold eye_present, calculateEAR. cbn [forallb].
  set (eye := getEyeLandmarks landmarks eyeIndices).
  destruct (at_index eye 0), (at_index eye 1), (at_index eye 2),
    (at_index eye 3), (at_index eye 4), (at_index eye 5);
    cbn; try discriminate; reflexivity.
Qed.

Lemma avgEAR_throws_iff (cfg : Config) (landmarks : list Point) :
  avgEAR cfg landmarks = Throw TypeError <-> eyes_present cfg landmarks = false.
Proof.
  split.
  - intros Hthrow. destruct (eyes_present cfg landmarks) eqn:Hp; [|reflexivity].
    destruct (avgEAR_present cfg landmarks Hp) as (a & b & _ & _ & H).
    congruence.
  - unfold eyes_present, avgEAR. intros H.
    destruct (eye_present landmarks (RIGHT_EYE cfg)) eqn:Hr.
    + cbn in H. destruct (calculateEAR_present _ _ Hr) as (? & ? & ? & ? & ? & ? & -> & _).
      cbn [bind]. now rewrite (eye_present_false_throws _ _ H).
    + now rewrite (eye_present_false_throws _ _ Hr).
Qed.

Lemma onResults_throws_aux
  (cfg : Config) (now : Z) (r : Results) (s : State) :
  onResults cfg now r s = Throw TypeError
  <-> exists landmarks,
        detected_face r = Some landmarks /\ eyes_present cfg landmarks = false.
Proof.
  unfold onResults, detected_face.
  destruct (multiFaceLandmarks r) as [[|l rest]|].
  - split; [discriminate|]. intros (l & H & _). discriminate.
  - split.
    + intros H. exists l. split; [reflexivity|].
      apply avgEAR_throws_iff.
      destruct (avgEAR cfg l) as [ear|[]]; [discriminate|reflexivity].
    + intros (l' & Hl & Hp). injection Hl as <-.
      apply avgEAR_throws_iff in Hp. now rewrite Hp.
  - split; [discriminate|]. intros (l & H & _). discriminate.
Qed.

(** X: the only failure of [onResults] is the [TypeError] of reading a
    coordinate of a missing landmark: it throws exactly when a face is
    reported and one of the twelve eye landmarks is absent from it; the
    arithmetic itself never throws. *)
Theorem onResults_throws_iff
  (cfg : Config) (now : Z) (r : Results) (s : State) :
  onResults cfg now r s = Throw TypeError
  <-> exists landmarks,
        detected_face r = Some landmarks /\ eyes_present cfg landmarks = false.
Proof. exact (onResults_throws_aux cfg now r s). Qed.

Lemma eyes_present_CONFIG_iff (landmarks : list Point) :
  eyes_present CONFIG landmarks = true <-> (388 <= List.length landmarks)%nat.
Proof.
  split; [|apply eyes_present_CONFIG].
  unfold eyes_present, eye_present. intros H. apply andb_prop in H as [_ H].
  cbn [forallb] in H.
  apply andb_prop in H as [_ H]. apply andb_prop in H as [_ H].
  apply andb_prop in H as [H _].
  unfold at_index, getEyeLandmarks in H.
  set (f := fun idx : nat => nth_error landmarks idx) in *.
  cbn [CONFIG LEFT_EYE map nth_error] in H. subst f. cbv beta in H.
  destruct (nth_error landmarks 387) eqn:E; [|discriminate].
  assert (nth_error landmarks 387 <> None) by congruence.
  apply nth_error_Some in H0. lia.
Qed.

(** X: with the landmark indices of [CONFIG], [onResults] throws exactly
    when the first reported face has fewer than 388 landmarks; a face mesh of
    468 or 478 points never makes it throw. *)
Theorem onResults_CONFIG_throws_iff (now : Z) (r : Results) (s : State) :
  onResults CONFIG now r s = Throw TypeError
  <-> exists landmarks,
        detected_face r = Some landmarks /\ (List.length landmarks < 388)%nat.
Proof.
  rewrite onResults_throws_aux. split; intros (l & Hl & H); exists l; split; try assumption.
  - destruct (Nat.lt_ge_cases (List.length l) 388) as [|Hge]; [assumption|].
    apply eyes_present_CONFIG_iff in Hge. congruence.
  - destruct (eyes_present CONFIG l) eqn:E; [|reflexivity].
    apply eyes_present_CONFIG_iff in E. lia.
Qed.

(** ** Trimming *)

Lemma trimStart_idem (s : jsstring) : trimStart (trimStart s) = trimStart s.
Proof.
  induction s as [|c r IH]; [reflexivity|].
  cbn [trimStart]. destruct (is_white_space c) eqn:E; [exact IH|].
  cbn [trimStart]. now rewrite E.
Qed.

Lemma trimStart_snoc (s : jsstring) (c : N) :
  is_white_space c = false -> trimStart (s ++ [c]) = trimStart s ++ [c].
Proof.
  intros Hc. induction s as [|d r IH]; cbn [trimStart app].
  - now rewrite Hc.
  - destruct (is_white_space d); [exact IH|reflexivity].
Qed.

Lemma trimEnd_cons (c : N) (s : jsstring) :
  is_white_space c = false -> trimEnd (c :: s) = c :: trimEnd s.
Proof.
  intros Hc. unfold trimEnd. cbn [rev].
  rewrite (trimStart_snoc _ _ Hc), rev_app_distr. reflexivity.
Qed.

Lemma trimEnd_idem (s : jsstring) : trimEnd (trimEnd s) = trimEnd s.
Proof.
  unfold trimEnd. now rewrite rev_involutive, trimStart_idem.
Qed.

(** Trimming the end does not uncover leading white space. *)
Lemma trimStart_trimEnd (s : jsstring) :
  trimStart s = s -> trimStart (trimEnd s) = trimEnd s.
Proof.
  destruct s as [|c r]; [reflexivity|].
  cbn [trimStart]. destruct (is_white_space c) eqn:Hc.
  - intros H. exfalso.
    assert (Hlen : forall l, (List.length (trimStart l) <= List.length l)%nat).
    { induction l as [|d l IH]; cbn; [lia|]. destruct (is_white_space d); cbn; lia. }
    specialize (Hlen r). rewrite H in Hlen. cbn in Hlen. lia.
  - intros _. rewrite (trimEnd_cons _ _ Hc). cbn [trimStart]. now rewrite Hc.
Qed.

Lemma trim_idem (s : jsstring) : trim (trim s) = trim s.
Proof.
  unfold trim.
  rewrite (trimStart_trimEnd (trimStart s) (trimStart_idem s)).
  apply trimEnd_idem.
Qed.

Lemma trim_with_plus (s : jsstring) : trim (with_plus (trim s)) = with_plus (trim s).
Proof.
  unfold with_plus. destruct (startsWith (trim s) plus_sign); [apply trim_idem|].
  unfold trim at 1. cbn [trimStart].
  change (is_white_space plus_sign) with false. cbv iota.
  rewrite trimEnd_cons by reflexivity. f_equal.
  unfold trim. apply trimEnd_idem.
Qed.

Lemma with_plus_idem (s : jsstring) : with_plus (with_plus s) = with_plus s.
Proof.
  unfold with_plus at 1. now rewrite with_plus_starts.
Qed.

Lemma with_plus_length (s : jsstring) :
  JsString.length s <= JsString.length (with_plus s).
Proof.
  unfold with_plus, JsString.length.
  destruct (startsWith s plus_sign); cbn [List.length]; lia.
Qed.

(** X: saving again what the panel shows changes nothing: after a save that
    was accepted, saving the stored recipient stores the same recipient and
    leaves the whole state as it is. *)
Theorem saveSettings_idempotent (value : jsstring) (s : State) :
  10 <= JsString.length (trim value) ->
  let s1 := fst (saveSettings value s) in
  saveSettings (SMS_RECIPIENT s1) s1 = (s1, []).
Proof.
  intros Hlen. cbv zeta.
  rewrite (saveSettings_accepts value s Hlen). cbn [fst SMS_RECIPIENT set_settingsStatus set_localStorage set_SMS_RECIPIENT].
  set (w := with_plus (trim value)).
  assert (Hw : trim w = w) by apply trim_with_plus.
  assert (Hlw : 10 <= JsString.length (trim w)).
  { rewrite Hw. pose proof (with_plus_length (trim value)). subst w. lia. }
  rewrite (saveSettings_accepts w _ Hlw), Hw.
  subst w. rewrite with_plus_idem. reflexivity.
Qed.

Lemma saveSettings_idempotent_witness :
  let s1 := fst (saveSettings (lit " 7780643862 ") alarmed) in
  saveSettings (SMS_RECIPIENT s1) s1 = (s1, []).
Proof.
  apply (saveSettings_idempotent (lit " 7780643862 ") alarmed).
  vm_compute. discriminate.
Defined.

(** X: an accepted recipient survives a reload of the page: the script
    started on what [localStorage] then holds has the normalized recipient
    in [CONFIG]; a rejected one leaves what a reload yields unchanged. *)
Theorem saved_recipient_survives_reload (value : jsstring) (s : State) :
  let s' := fst (saveSettings value s) in
  (10 <= JsString.length (trim value) ->
   SMS_RECIPIENT (initial (localStorage s')) = with_plus (trim value))
  /\ (JsString.length (trim value) < 10 ->
      initial (localStorage s') = initial (localStorage s)).
Proof.
  cbv zeta. split; intros Hlen.
  - rewrite (saveSettings_accepts value s Hlen). cbn [fst localStorage set_settingsStatus set_localStorage].
    unfold initial, loadSavedSettings, updateStatus, chain, modify. cbn.
    assert (Ht : truthy (with_plus (trim value)) = true).
    { unfold with_plus. destruct (startsWith (trim value) plus_sign) eqn:E; [|reflexivity].
      destruct (trim value); [discriminate|reflexivity]. }
    rewrite Ht. reflexivity.
  - rewrite (saveSettings_rejects value s Hlen). reflexivity.
Qed.

Lemma saved_recipient_survives_reload_witness :
  SMS_RECIPIENT (initial (localStorage (fst (saveSettings (lit "7780643862") alarmed))))
  = lit "+7780643862"
  /\ initial (localStorage (fst (saveSettings (lit "12345") alarmed)))
     = initial (localStorage alarmed).
Proof.
  split.
  - apply (proj1 (saved_recipient_survives_reload (lit "7780643862") alarmed)).
    vm_compute. discriminate.
  - apply (proj2 (saved_recipient_survives_reload (lit "12345") alarmed)).
    vm_compute. reflexivity.
Defined.

(** X: the next alert goes to the recipient just saved: after an accepted
    save, an alarm raised from AWAKE outside the cooldown issues its request
    to the normalized recipient. *)
Theorem next_sms_goes_to_saved_recipient
  (cfg : Config) (now : Z) (value : jsstring) (s : State) :
  10 <= JsString.length (trim value) ->
  alarmOn s = false ->
  SMS_COOLDOWN_MS cfg <= now - lastSmsTime s ->
  snd (triggerAlarm cfg now (fst (saveSettings value s)))
  = [alarm_started; sms_request now (with_plus (trim value))].
Proof.
  intros Hlen Hoff Hcool.
  rewrite (saveSettings_accepts value s Hlen). cbn [fst].
  match goal with |- snd (triggerAlarm cfg now ?s1) = _ =>
    destruct (triggerAlarm_events cfg now s1 Hoff) as (Hev & _)
  end.
  rewrite Hev. cbn [lastSmsTime SMS_RECIPIENT set_settingsStatus set_localStorage set_SMS_RECIPIENT].
  apply Z.ltb_ge in Hcool. now rewrite Hcool.
Qed.

Lemma next_sms_goes_to_saved_recipient_witness :
  snd (triggerAlarm CONFIG t0 (fst (saveSettings (lit "7780643862") five_low)))
  = [alarm_started; sms_request t0 (with_plus (trim (lit "7780643862")))].
Proof.
  apply (next_sms_goes_to_saved_recipient CONFIG t0 (lit "7780643862") five_low);
    [vm_compute; discriminate | vm_compute; reflexivity | vm_compute; discriminate].
Defined.

(** ** The distance *)

Lemma binary_round_aux_negb (s : bool) (m e : Z) (l : location) :
  binary_round_aux prec emax (negb s) m e l
  = SFopp (binary_round_aux prec emax s m e l).
Proof.
  unfold binary_round_aux.
  destruct (shr_fexp prec emax m e l) as [mrs1 e1].
  destruct (shr_fexp prec emax _ e1 loc_Exact) as [mrs3 e3].
  destruct (shr_m mrs3); try reflexivity.
  destruct (e3 <=? emax - prec); reflexivity.
Qed.

Lemma binary_normalize_opp (z e : Z) :
  z <> 0 ->
  binary_normalize prec emax (- z) e false
  = SFopp (binary_normalize prec emax z e false).
Proof.
  intros Hz. destruct z as [|p|p]; [congruence| |]; cbn [Z.opp binary_normalize];
    unfold binary_round;
    destruct (shl_align p e _) as [mz ez].
  - apply (binary_round_aux_negb false).
  - rewrite (binary_round_aux_negb false). 
    now destruct (binary_round_aux prec emax false (Zpos mz) ez loc_Exact) as [[]|[]| |[] ? ?].
Qed.

(** Swapping the operands of a difference changes at most its sign. *)
Lemma sub_swap (a b : number) :
  sub b a = sub a b \/ sub b a = SFopp (sub a b).
Proof.
  unfold sub.
  destruct a as [sa|sa| |sa ma ea], b as [sb|sb| |sb mb eb]; cbn [SFsub SFopp];
    try solve [repeat match goal with t : bool |- _ => destruct t end; auto].
  rewrite (Z.min_comm eb ea).
  set (X := cond_Zopp sa (Zpos (fst (shl_align ma ea (Z.min ea eb))))).
  set (Y := cond_Zopp sb (Zpos (fst (shl_align mb eb (Z.min ea eb))))).
  destruct (Z.eq_dec (X - Y) 0) as [Hz|Hz].
  - left. replace (Y - X) with 0 by lia. now rewrite Hz.
  - right. replace (Y - X) with (- (X - Y)) by lia.
    now apply binary_normalize_opp.
Qed.

Lemma pow2_opp (v : number) : pow2 (SFopp v) = pow2 v.
Proof.
  unfold pow2, mul. destruct v as [[]|[]| |[] m e]; reflexivity.
Qed.

Lemma pow2_sub_swap (a b : number) : pow2 (sub b a) = pow2 (sub a b).
Proof.
  destruct (sub_swap a b) as [->| ->]; [reflexivity|apply pow2_opp].
Qed.

(** X: the distance is symmetric, bit for bit, for all binary64 coordinates
    (NaN and the infinities included), and it throws for the same arguments
    in either order. *)
Theorem distance_symmetric (p q : option Point) : distance p q = distance q p.
Proof.
  destruct p as [p|], q as [q|]; try reflexivity.
  unfold distance. cbn [coord bind].
  now rewrite (pow2_sub_swap (pt_x p) (pt_x q)), (pow2_sub_swap (pt_y p) (pt_y q)).
Qed.

Lemma sub_self (v : number) : is_finite v = true -> sub v v = S754_zero false.
Proof.
  unfold sub. destruct v as [[]|[]| |s m e]; try discriminate; try reflexivity.
  intros _. cbn [SFsub].
  match goal with
  | |- binary_normalize _ _ ?z _ _ = _ => replace z with 0 by lia
  end.
  reflexivity.
Qed.

(** X: the distance of a point with finite coordinates to itself is +0. *)
Theorem distance_to_self (p : Point) :
  is_finite (pt_x p) = true -> is_finite (pt_y p) = true ->
  distance (Some p) (Some p) = Ok (S754_zero false).
Proof.
  intros Hx Hy. unfold distance. cbn [coord bind].
  rewrite (sub_self _ Hx), (sub_self _ Hy). reflexivity.
Qed.

Lemma distance_to_self_witness :
  distance (Some (pt (dyadic 3 (-2)) (dyadic 1 (-1))))
           (Some (pt (dyadic 3 (-2)) (dyadic 1 (-1)))) = Ok (S754_zero false).
Proof.
  apply (distance_to_self (pt (dyadic 3 (-2)) (dyadic 1 (-1)))); reflexivity.
Defined.

(** ** The averaged EAR *)

Lemma sign_half (a : number) : sign_bit a = false -> sign_bit (div a (of_Z 2)) = false.
Proof. intros H. apply sign_div; [exact H|reflexivity]. Qed.

(** X: whenever the averaged EAR of a face is computed it is not negative:
    its sign bit is clear, so it is +0, a positive number, +Infinity or
    NaN, and it is never below zero. *)
Theorem avgEAR_never_negative (cfg : Config) (landmarks : list Point) (ear : number) :
  avgEAR cfg landmarks = Ok ear ->
  sign_bit ear = false /\ ltb ear zero = false.
Proof.
  intros Hear.
  assert (Hp : eyes_present cfg landmarks = true).
  { destruct (eyes_present cfg landmarks) eqn:E; [reflexivity|].
    apply avgEAR_throws_iff in E. congruence. }
  unfold eyes_present in Hp. apply andb_prop in Hp as [Hr Hl].
  destruct (calculateEAR_present _ _ Hr) as (r0 & r1 & r2 & r3 & r4 & r5 & Hr' & _).
  destruct (calculateEAR_present _ _ Hl) as (l0 & l1 & l2 & l3 & l4 & l5 & Hl' & _).
  unfold avgEAR in Hear. rewrite Hr', Hl' in Hear. cbn [bind] in Hear.
  injection Hear as <-.
  match goal with
  | |- sign_bit ?E = false /\ _ =>
      assert (Hs : sign_bit E = false)
        by (apply sign_half, sign_add; apply (computeEAR_sign _ _ _ _ _ _));
      revert Hs; generalize E
  end.
  intros v Hs. split; [exact Hs|].
  destruct v as [[]|[]| |[] m e]; try discriminate; reflexivity.
Qed.

Lemma avgEAR_never_negative_witness :
  sign_bit (dyadic 1 (-1)) = false /\ ltb (dyadic 1 (-1)) zero = false.
Proof.
  apply (avgEAR_never_negative CONFIG (face_of (eye_points (dyadic 1 (-3))) 468)).
  vm_compute. reflexivity.
Defined.



(** ** The beep *)

Lemma startAlarmSound_spec (s : State) :
  let s' := fst (startAlarmSound s) in
  audioContext s' = true /\ alarmInterval s' = true
  /\ alarmOscillator s' = false /\ beepOn s' = true
  /\ alarmOn s' = alarmOn s /\ snd (startAlarmSound s) = [].
Proof.
  unfold_acts. cbn. repeat (break_if; cbn);
    destruct (audioContext s) eqn:?; cbn in *; repeat split; congruence.
Qed.

Lemma alarmTick_on (s : State) :
  alarmInterval s = true -> beepOn s = true ->
  let s' := fst (alarmTick true s) in
  alarmInterval s' = true /\ beepOn s' = false /\ alarmOscillator s' = true.
Proof.
  intros Hi Hb. unfold alarmTick. unfold_acts. cbn. rewrite Hi. cbn.
  rewrite Hb. cbn. rewrite Hb. auto.
Qed.

Lemma alarmTick_off (s : State) :
  alarmInterval s = true -> beepOn s = false ->
  let s' := fst (alarmTick true s) in
  alarmInterval s' = true /\ beepOn s' = true /\ alarmOscillator s' = false.
Proof.
  intros Hi Hb. unfold alarmTick. unfold_acts. cbn. rewrite Hi. cbn.
  rewrite Hb. cbn. destruct (alarmOscillator s) eqn:Ho; cbn; rewrite ?Hb, ?Ho; auto.
Qed.

Lemma ticks_pattern (n : nat) :
  forall s,
    alarmInterval s = true ->
    alarmOscillator s = negb (beepOn s) ->
    alarmInterval (ticks n s) = true
    /\ beepOn (ticks n s) = (if Nat.even n then beepOn s else negb (beepOn s))
    /\ alarmOscillator (ticks n s) = negb (beepOn (ticks n s)).
Proof.
  induction n as [|n IH]; intros s Hi Ho.
  - cbn. auto.
  - cbn [ticks].
    assert (H1 : alarmInterval (fst (alarmTick true s)) = true
                 /\ beepOn (fst (alarmTick true s)) = negb (beepOn s)
                 /\ alarmOscillator (fst (alarmTick true s)) = beepOn s).
    { destruct (beepOn s) eqn:Hb.
      - destruct (alarmTick_on s Hi Hb) as (? & ? & ?). auto.
      - destruct (alarmTick_off s Hi Hb) as (? & ? & ?). auto. }
    destruct H1 as (Hi1 & Hb1 & Ho1).
    destruct (IH (fst (alarmTick true s)) Hi1) as (Hi' & Hb' & Ho').
    { rewrite Ho1, Hb1. now rewrite negb_involutive. }
    split; [exact Hi'|]. split; [|exact Ho'].
    rewrite Hb', Hb1, Nat.even_succ, <- Nat.negb_even.
    destruct (Nat.even n); cbn; now rewrite ?negb_involutive.
Qed.

(** X: the beep alternates: after [startAlarmSound], whatever the state
    was, the tone is off, and after [n] firings of the 250 ms timer an
    oscillator is sounding exactly when [n] is odd. *)
Theorem beep_alternates (n : nat) (s : State) :
  let s' := ticks n (fst (startAlarmSound s)) in
  alarmInterval s' = true /\ alarmOscillator s' = Nat.odd n.
Proof.
  cbv zeta. destruct (startAlarmSound_spec s) as (_ & Hi & Ho & Hb & _).
  destruct (ticks_pattern n (fst (startAlarmSound s)) Hi) as (Hi' & Hb' & Ho').
  { now rewrite Ho, Hb. }
  split; [exact Hi'|]. rewrite Ho', Hb', Hb, <- Nat.negb_even.
  now destruct (Nat.even n).
Qed.

(** X: once [stopAlarmSound] has run there is no timer and no oscillator,
    and a late firing of the old timer changes nothing: the tone stays off
    until the next [startAlarmSound]. *)
Theorem stopAlarmSound_silences (created : bool) (s : State) :
  let s' := fst (stopAlarmSound s) in
  alarmInterval s' = false /\ alarmOscillator s' = false
  /\ alarmTick created s' = (s', []).
Proof.
  unfold alarmTick. unfold_acts. cbn.
  destruct (alarmInterval s) eqn:Hi, (alarmOscillator s) eqn:Ho; cbn;
    rewrite ?Hi, ?Ho; cbn; rewrite ?Hi; cbn; auto.
Qed.

Lemma str_eqb_eq (a b : jsstring) : str_eqb a b = true <-> a = b.
Proof. unfold str_eqb. destruct (list_eq_dec N.eq_dec a b); split; congruence. Qed.

(** Slicing keeps a suffix that fits, and cuts to the length asked for. *)
Lemma slice_last_suffix (n : nat) (u y : jsstring) :
  (List.length y <= n)%nat ->
  exists u',
    slice_last n (u ++ y) = u' ++ y
    /\ ((n < List.length (u ++ y))%nat -> List.length (u' ++ y) = n).
Proof.
  intros Hy. unfold slice_last. rewrite length_app.
  exists (skipn (List.length u + List.length y - n) u).
  rewrite skipn_app.
  replace (List.length u + List.length y - n - List.length u)%nat with 0%nat by lia.
  cbn [skipn]. split; [reflexivity|].
  intros Hlt. rewrite length_app, length_skipn. lia.
Qed.

Lemma single_key_not_escape (c : N) : str_eqb [c] ESCAPE = false.
Proof.
  destruct (str_eqb [c] ESCAPE) eqn:E; [|reflexivity].
  apply str_eqb_eq in E. discriminate.
Qed.

Section SecretCode.

Variable toLowerCase : jsstring -> jsstring.

(** What the buffer holds after the first listener, before the comparison. *)
Lemma typed_suffix (u y : jsstring) :
  (List.length y <= List.length SECRET_CODE)%nat ->
  exists u',
    (if (List.length SECRET_CODE <? List.length (u ++ y))%nat
     then slice_last (List.length SECRET_CODE) (u ++ y)
     else u ++ y) = u' ++ y
    /\ (List.length (u' ++ y) <= List.length SECRET_CODE)%nat.
Proof.
  intros Hy. destruct (Nat.ltb_spec (List.length SECRET_CODE) (List.length (u ++ y))) as [Hlt|Hge].
  - destruct (slice_last_suffix (List.length SECRET_CODE) u y Hy) as (u' & Hs & Hl).
    exists u'. split; [exact Hs|]. rewrite (Hl Hlt). lia.
  - exists u. split; [reflexivity|exact Hge].
Qed.

(** X: after a key press outside an input field the buffer of typed keys
    holds at most 8 code units, the length of the secret code, whatever it
    held before; and a key press in an input field leaves the panel alone
    unless it is Escape. *)
Theorem typed_keys_bounded (key : jsstring) (p : Panel) (s : State) :
  (List.length (typedKeys (fst (keydown toLowerCase false key (p, s))))
   <= List.length SECRET_CODE)%nat
  /\ (str_eqb key ESCAPE = false ->
      keydown toLowerCase true key (p, s) = (p, s)).
Proof.
  split.
  - unfold keydown, onSecretKeydown.
    destruct (typed_suffix (typedKeys p ++ toLowerCase key) [] ltac:(cbn; lia))
      as (u' & Hs & Hl).
    rewrite !app_nil_r in Hs, Hl. rewrite Hs.
    unfold onEscapeKeydown, openSettings. cbn in Hl.
    repeat break_if; cbn; rewrite ?app_nil_r; lia.
  - intros Hk. unfold keydown, onSecretKeydown, onEscapeKeydown. now rewrite Hk.
Qed.

(** X: Escape closes the panel and empties the buffer whenever the panel is
    shown, also while the focus is in the recipient input; the state of the
    detector is not touched unless the key press itself completed the secret
    code. *)
Theorem escape_closes_panel (targetIsInput : bool) (p : Panel) (s : State) :
  settingsModal p = true ->
  let p' := fst (keydown toLowerCase targetIsInput ESCAPE (p, s)) in
  settingsModal p' = false /\ typedKeys p' = []
  /\ (targetIsInput = true ->
      snd (keydown toLowerCase targetIsInput ESCAPE (p, s)) = s).
Proof.
  intros Hm. cbv zeta. unfold keydown, onSecretKeydown.
  destruct targetIsInput.
  - unfold onEscapeKeydown. rewrite Hm.
    replace (str_eqb ESCAPE ESCAPE) with true by reflexivity. cbn. auto.
  - match goal with
    | |- context [str_eqb ?t SECRET_CODE] => destruct (str_eqb t SECRET_CODE)
    end; cbn [openSettings]; unfold onEscapeKeydown;
      replace (str_eqb ESCAPE ESCAPE) with true by reflexivity;
      cbn; rewrite ?Hm; cbn; repeat split; discriminate.
Qed.

Hypothesis lower_secret :
  forall c, In c SECRET_CODE -> toLowerCase [c] = [c].

(** Typing a part of the code that is not its end keeps the panel as it is
    and leaves that part at the end of the buffer. *)
Lemma type_inner_key (c : N) (pre post : jsstring) (u : jsstring) (p : Panel) (s : State) :
  SECRET_CODE = pre ++ c :: post ->
  post <> [] ->
  typedKeys p = u ++ pre ->
  exists u',
    keydown toLowerCase false [c] (p, s)
    = (mkPanel (u' ++ pre ++ [c]) (settingsModal p) (smsRecipientInput p), s).
Proof.
  intros Hsec Hpost Hbuf.
  assert (Hc : toLowerCase [c] = [c]).
  { apply lower_secret. rewrite Hsec. apply in_or_app. right. now left. }
  assert (Hlen : (List.length (pre ++ [c]) <= List.length SECRET_CODE)%nat).
  { rewrite Hsec, !length_app. cbn. lia. }
  destruct (typed_suffix u (pre ++ [c]) Hlen) as (u' & Hs & Hl).
  exists u'.
  unfold keydown, onSecretKeydown. rewrite Hbuf, Hc, <- app_assoc, Hs.
  assert (Hne : str_eqb (u' ++ pre ++ [c]) SECRET_CODE = false).
  { destruct (str_eqb (u' ++ pre ++ [c]) SECRET_CODE) eqn:E; [|reflexivity].
    apply str_eqb_eq in E. exfalso.
    assert (Hlast : last (u' ++ pre ++ [c]) 0%N = c).
    { rewrite app_assoc. apply last_last. }
    rewrite E in Hlast.
    (* the last key of the code occurs nowhere else in it *)
    assert (Hin : In c (removelast SECRET_CODE)).
    { rewrite Hsec. destruct post as [|d post']; [congruence|].
      rewrite removelast_app by discriminate. apply in_or_app. right.
      cbn [removelast]. now left. }
    subst c. revert Hin. vm_compute. intuition discriminate. }
  rewrite Hne. unfold onEscapeKeydown.
  rewrite (single_key_not_escape c). reflexivity.
Qed.

Lemma type_last_key (c : N) (pre : jsstring) (u : jsstring) (p : Panel) (s : State) :
  SECRET_CODE = pre ++ [c] ->
  typedKeys p = u ++ pre ->
  keydown toLowerCase false [c] (p, s)
  = (mkPanel [] true (SMS_RECIPIENT s), set_settingsStatus Settings_blank s).
Proof.
  intros Hsec Hbuf.
  assert (Hc : toLowerCase [c] = [c]).
  { apply lower_secret. rewrite Hsec. apply in_or_app. right. now left. }
  destruct (typed_suffix u SECRET_CODE (Nat.le_refl _)) as (u' & Hs & Hl).
  assert (Hu' : u' = []).
  { rewrite length_app in Hl. destruct u'; [reflexivity|cbn in Hl; lia]. }
  subst u'. cbn [app] in Hs.
  unfold keydown, onSecretKeydown. rewrite Hbuf, Hc, <- app_assoc, <- Hsec, Hs.
  replace (str_eqb SECRET_CODE SECRET_CODE) with true by reflexivity.
  cbn [openSettings]. unfold onEscapeKeydown.
  rewrite (single_key_not_escape c). reflexivity.
Qed.

Lemma type_rest (post : jsstring) :
  post <> [] ->
  forall pre u p s,
    SECRET_CODE = pre ++ post ->
    typedKeys p = u ++ pre ->
    typeKeys toLowerCase (keys_of post) (p, s)
    = (mkPanel [] true (SMS_RECIPIENT s), set_settingsStatus Settings_blank s).
Proof.
  induction post as [|c post IH]; [congruence|]. intros _ pre u p s Hsec Hbuf.
  destruct post as [|d post'].
  - cbn [keys_of map typeKeys fold_left]. now apply (type_last_key c pre u).
  - destruct (type_inner_key c pre (d :: post') u p s Hsec ltac:(discriminate) Hbuf)
      as (u' & Hstep).
    change (keys_of (c :: d :: post')) with ([c] :: keys_of (d :: post')).
    cbn [typeKeys fold_left]. rewrite Hstep.
    apply (IH ltac:(discriminate) (pre ++ [c]) u').
    + now rewrite <- app_assoc.
    + reflexivity.
Qed.

(** X: typing the secret code outside an input field opens the settings
    panel, whatever was typed before and whether or not the panel was already
    shown: the modal is shown, the input holds the current recipient, the
    status line is blank and the buffer is empty again. *)
Theorem typing_secret_code_opens_settings (p : Panel) (s : State) :
  typeKeys toLowerCase (keys_of SECRET_CODE) (p, s)
  = (mkPanel [] true (SMS_RECIPIENT s), set_settingsStatus Settings_blank s).
Proof.
  apply (type_rest SECRET_CODE ltac:(discriminate) [] (typedKeys p) p s).
  - reflexivity.
  - now rewrite app_nil_r.
Qed.

End SecretCode.

Lemma typing_secret_code_opens_settings_witness :
  typeKeys lower_ascii (keys_of SECRET_CODE)
    (mkPanel (lit "wakeguard777") false [], alarmed)
  = (mkPanel [] true (SMS_RECIPIENT alarmed), set_settingsStatus Settings_blank alarmed).
Proof.
  apply (typing_secret_code_opens_settings lower_ascii).
  intros c Hc. vm_compute in Hc.
  repeat (destruct Hc as [<-|Hc]; [reflexivity|]). destruct Hc.
Defined.

Lemma escape_closes_panel_witness :
  let p' := fst (keydown lower_ascii true ESCAPE (mkPanel [] true [], alarmed)) in
  settingsModal p' = false /\ typedKeys p' = []
  /\ (true = true ->
      snd (keydown lower_ascii true ESCAPE (mkPanel [] true [], alarmed)) = alarmed).
Proof.
  apply (escape_closes_panel lower_ascii true (mkPanel [] true []) alarmed).
  reflexivity.
Defined.

Lemma typed_keys_bounded_witness :
  (List.length (typedKeys (fst (keydown lower_ascii false (lit "Shift")
                                  (mkPanel (lit "pasha12") false [], alarmed))))
   <= List.length SECRET_CODE)%nat
  /\ keydown lower_ascii true (lit "x") (mkPanel (lit "pasha12") false [], alarmed)
     = (mkPanel (lit "pasha12") false [], alarmed).
Proof.
  destruct (typed_keys_bounded lower_ascii (lit "Shift")
              (mkPanel (lit "pasha12") false []) alarmed) as [H _].
  split; [exact H|].
  apply (proj2 (typed_keys_bounded lower_ascii (lit "x")
                  (mkPanel (lit "pasha12") false []) alarmed)).
  reflexivity.
Defined.





(** ** The recipient keeps its "+" *)

Lemma step_recipient (cfg : Config) (i : Input) (s s' : State) (ev : list Event) :
  step cfg i s = Ok (s', ev) ->
  SMS_RECIPIENT s' = SMS_RECIPIENT s
  \/ exists value, SMS_RECIPIENT s' = with_plus (trim value).
Proof.
  intros Hstep. destruct i as [ok| |now r|k o|created|value]; unfold step in Hstep.
  - injection Hstep as Hstep. apply (f_equal fst) in Hstep. cbn [fst] in Hstep.
    subst s'. left. unfold_acts. destruct ok; cbn; repeat (break_if; cbn); reflexivity.
  - injection Hstep as Hstep. apply (f_equal fst) in Hstep. cbn [fst] in Hstep.
    subst s'. left. unfold_acts. cbn. repeat (break_if; cbn); reflexivity.
  - unfold onResults in Hstep.
    assert (Hnf : forall p, Ok (onNoFace s) = Ok p -> SMS_RECIPIENT (fst p) = SMS_RECIPIENT s).
    { intros p Hp. injection Hp as <-. unfold_acts. cbn.
      repeat (break_if; cbn); reflexivity. }
    destruct (multiFaceLandmarks r) as [[|l rest]|].
    + left. exact (Hnf _ Hstep).
    + destruct (avgEAR cfg l) as [ear|]; cbn [bind] in Hstep; [|discriminate].
      injection Hstep as Hstep. apply (f_equal fst) in Hstep. cbn [fst] in Hstep.
      subst s'. left. unfold_acts. cbn.
      destruct (ltb ear (EAR_THRESHOLD cfg)); cbn; repeat (break_if; cbn); reflexivity.
    + left. exact (Hnf _ Hstep).
  - injection Hstep as Hstep. apply (f_equal fst) in Hstep. cbn [fst] in Hstep.
    subst s'. left. unfold smsSettled.
    destruct (nth_error (smsInFlight s) k); [destruct o|]; reflexivity.
  - injection Hstep as Hstep. apply (f_equal fst) in Hstep. cbn [fst] in Hstep.
    subst s'. left. unfold alarmTick. unfold_acts. cbn.
    destruct created; repeat (break_if; cbn); reflexivity.
  - injection Hstep as Hstep. apply (f_equal fst) in Hstep. cbn [fst] in Hstep.
    subst s'. unfold saveSettings. break_if; cbn; [now left|right].
    exists value. reflexivity.
Qed.

(** X: a recipient that starts with "+" keeps doing so: after any run from
    such a state the recipient in [CONFIG] starts with "+", and so does the
    recipient of every SMS request issued during the run. *)
Theorem recipient_keeps_plus
  (cfg : Config) (inputs : list Input) (s s' : State) (evs : list Event) :
  startsWith (SMS_RECIPIENT s) plus_sign = true ->
  run cfg inputs s = Ok (s', evs) ->
  startsWith (SMS_RECIPIENT s') plus_sign = true
  /\ forallb addressed_with_plus evs = true.
Proof.
  revert s s' evs. induction inputs as [|i rest IH]; intros s s' evs Hs Hrun; cbn in Hrun.
  - injection Hrun as <- <-. auto.
  - destruct (step cfg i s) as [[s1 l1]|] eqn:Hstep; cbn in Hrun; [|discriminate].
    destruct (run cfg rest s1) as [[s2 l2]|] eqn:Hrest; cbn in Hrun; [|discriminate].
    injection Hrun as <- <-.
    assert (Hs1 : startsWith (SMS_RECIPIENT s1) plus_sign = true).
    { destruct (step_recipient cfg i s s1 l1 Hstep) as [->|[v ->]];
        [exact Hs|apply with_plus_starts]. }
    destruct (IH s1 s2 l2 Hs1 Hrest) as [H2 Hev].
    split; [exact H2|]. rewrite forallb_app, Hev, andb_true_r.
    destruct (step_has_shape cfg i s s1 l1 Hstep); cbn; rewrite ?Hs; reflexivity.
Qed.

Lemma recipient_keeps_plus_witness :
  startsWith (SMS_RECIPIENT alarmed) plus_sign = true
  /\ forallb addressed_with_plus (events_of (repeat (Frame t0 closed_eyes) 20)) = true.
Proof.
  apply (recipient_keeps_plus CONFIG (repeat (Frame t0 closed_eyes) 20) (initial None));
    vm_compute; reflexivity.
Defined.
